(** * Text classification of MultiNLI sentences with several transformers

    A shallow embedding of the notebook
    [examples/text_classification/tc_mnli_transformers.ipynb]: the cells
    that split, sample and label-encode the data frame, the loop that
    fine-tunes and scores every model of [MODEL_NAMES], and the two
    summary scalars glued at the end.

    Conventions.
    - A Python [float] is read as an exact rational ([Q]); rounding error
      and NaN are outside the model.
    - A raised exception is a value of [exn]; state that a Python
      exception leaves behind (the [results] dict, the random generator,
      the outside world of the model wrappers) is returned next to it.
    - The functions the notebook imports from scikit-learn, pandas and
      numpy are embedded by what the imported version does (scikit-learn
      0.20, the version whose warning is recorded under cell 8). *)

From Stdlib Require Import String Ascii.
From Stdlib Require Import List Bool Arith ZArith QArith Qround.
From Stdlib Require Import Lia Lqa Permutation Sorted.
From Stdlib Require OrderedTypeEx Finite.
Import ListNotations.
Open Scope list_scope.

(* ================================================================== *)
(** * Exceptions and results *)

Inductive exn : Type :=
| ValueError (msg : string)
| KeyError (key : string)
| IndexError (msg : string)
| TypeError (msg : string)
| AttributeError (msg : string)
| RuntimeError (msg : string).

Inductive result (A : Type) : Type :=
| Ok (a : A)
| Raise (e : exn).
Arguments Ok {A} a.
Arguments Raise {A} e.

Definition bind {A B : Type} (r : result A) (k : A -> result B) : result B :=
  match r with
  | Ok a => k a
  | Raise e => Raise e
  end.

Notation "x <- c ;; k" := (bind c (fun x => k))
  (at level 61, c at next level, right associativity).

Fixpoint mapM {A B : Type} (f : A -> result B) (l : list A) : result (list B) :=
  match l with
  | [] => Ok []
  | a :: l' => b <- f a ;; bs <- mapM f l' ;; Ok (b :: bs)
  end.

(* ================================================================== *)
(** * Notebook parameters (cell 3) *)

Definition NUM_EPOCHS : nat := 1.
Definition BATCH_SIZE : nat := 16.
Definition NUM_GPUS : nat := 2.
Definition MAX_LEN : nat := 100.
Definition TRAIN_DATA_FRACTION : Q := 5 # 100.
Definition TEST_DATA_FRACTION : Q := 5 # 100.
Definition TRAIN_SIZE : Q := 75 # 100.
Definition LABEL_COL : string := "genre".
Definition TEXT_COL : string := "sentence1".
Definition MODEL_NAMES : list string :=
  ["distilbert-base-uncased"; "roberta-base"; "xlnet-base-cased"]%string.

(* ================================================================== *)
(** * Data frames *)

(** A cell of a frame: the notebook's frames hold text and, after
    encoding, integer codes. *)
Inductive value : Type :=
| VStr (s : string)
| VInt (z : Z).

(** A row keeps its index label and its cells by column name. *)
Record Row : Type := mkRow { index : nat; cells : list (string * value) }.

Record DataFrame : Type := mkDataFrame {
  columns : list string;
  rows : list Row
}.

Definition shape0 (df : DataFrame) : nat := length (rows df).

Fixpoint lookup {V : Type} (k : string) (d : list (string * V)) : option V :=
  match d with
  | [] => None
  | (k', v) :: d' => if String.eqb k k' then Some v else lookup k d'
  end.

(** Python's [d[k] = v] on an insertion-ordered mapping: an existing key
    keeps its place and gets the new value, a new key goes last. *)
Fixpoint assign {V : Type} (k : string) (v : V) (d : list (string * V))
  : list (string * V) :=
  match d with
  | [] => [(k, v)]
  | (k', v') :: d' =>
      if String.eqb k k' then (k', v) :: d' else (k', v') :: assign k v d'
  end.

Definition has_column (df : DataFrame) (col : string) : bool :=
  existsb (String.eqb col) (columns df).

(** [df[col]]: the column as a sequence, [KeyError] when there is none. *)
Definition getitem (df : DataFrame) (col : string) : result (list value) :=
  if has_column df col then
    mapM (fun r => match lookup col (cells r) with
                   | Some v => Ok v
                   | None => Raise (KeyError col)
                   end) (rows df)
  else Raise (KeyError col).

Fixpoint zip_rows (f : Row -> value -> Row) (rs : list Row) (vs : list value)
  : list Row :=
  match rs, vs with
  | r :: rs', v :: vs' => f r v :: zip_rows f rs' vs'
  | _, _ => []
  end.

(** [df[col] = vals]: positional assignment of an array to a column;
    an existing column is overwritten, a new one is appended; pandas
    refuses an array whose length is not the frame's. *)
Definition setitem (df : DataFrame) (col : string) (vals : list value)
  : result DataFrame :=
  if negb (length vals =? shape0 df)%nat then
    Raise (ValueError "Length of values does not match length of index")
  else
    Ok (mkDataFrame
          (if has_column df col then columns df else columns df ++ [col])
          (zip_rows (fun r v => mkRow (index r) (assign col v (cells r)))
                    (rows df) vals)).

(** [take]: the elements at the given positions, in that order. *)
Definition take {A : Type} (l : list A) (locs : list nat) : list A :=
  flat_map (fun i => match nth_error l i with Some a => [a] | None => [] end)
           locs.

Definition df_take (df : DataFrame) (locs : list nat) : DataFrame :=
  mkDataFrame (columns df) (take (rows df) locs).

(** [reset_index(drop=True)]: the index becomes 0, 1, 2, ... *)
Fixpoint renumber (k : nat) (rs : list Row) : list Row :=
  match rs with
  | [] => []
  | r :: rs' => mkRow k (cells r) :: renumber (S k) rs'
  end.

Definition reset_index (df : DataFrame) : DataFrame :=
  mkDataFrame (columns df) (renumber 0 (rows df)).

(** A column read as labels (strings) or as codes (integers). *)
Definition as_label (v : value) : result string :=
  match v with
  | VStr s => Ok s
  | VInt _ => Raise (TypeError "label is not a string")
  end.

Definition as_code (v : value) : result Z :=
  match v with
  | VInt z => Ok z
  | VStr _ => Raise (ValueError "Classification metrics can't handle a mix of targets")
  end.

(* ================================================================== *)
(** * numpy: sorted distinct elements, the random generator *)

Section Unique.
Context {A : Type} (cmp : A -> A -> comparison).

Fixpoint insert_sorted (x : A) (l : list A) : list A :=
  match l with
  | [] => [x]
  | y :: l' =>
      match cmp x y with
      | Eq => l
      | Lt => x :: l
      | Gt => y :: insert_sorted x l'
      end
  end.

(** [np.unique]: the sorted distinct elements. *)
Definition np_unique (y : list A) : list A :=
  fold_right insert_sorted [] y.
End Unique.

(** The generator behind [random_state]: [RandomState seed] is a fresh
    generator, [permutation g n] shuffles [0 .. n-1] and advances the
    generator.  numpy is not part of the repository; the generator is a
    parameter, and [permutation_ok] is the one property used of it. *)
Class RandomGen : Type := {
  rng_state : Type;
  RandomState : Z -> rng_state;
  permutation : rng_state -> nat -> list nat * rng_state
}.

Definition permutation_ok (R : RandomGen) : Prop :=
  forall (g : rng_state) (n : nat),
    Permutation (fst (permutation g n)) (seq 0 n).

(** A small generator for the examples: the state is a counter, the
    shuffle rotates [0 .. n-1] by the counter. *)
Definition rotate (k : nat) (l : list nat) : list nat :=
  skipn (k mod (length l)) l ++ firstn (k mod (length l)) l.

Definition RotateGen : RandomGen := {|
  rng_state := nat;
  RandomState := fun seed => Z.to_nat seed;
  permutation := fun g n => (rotate g (seq 0 n), S g)
|}.

(* ================================================================== *)
(** * Splitting and sampling (cells 8 and 9) *)

Definition Qltb (x y : Q) : bool := negb (Qle_bool y x).

(** Python 3 [round] of a float to an integer: nearest, ties to even. *)
Definition py_round (x : Q) : Z :=
  let f := Qfloor x in
  match Qcompare (x - inject_Z f) (1 # 2) with
  | Lt => f
  | Gt => (f + 1)%Z
  | Eq => if Z.even f then f else (f + 1)%Z
  end.

Definition n_rows_of (frac : Q) (n : nat) : Q := frac * inject_Z (Z.of_nat n).

Section Sampling.
Context {R : RandomGen}.

(** [sklearn.model_selection.train_test_split(arr, train_size=...,
    random_state=...)], as scikit-learn 0.20 does it with only
    [train_size] given: [n_train = floor(train_size * n)], the test set
    is the complement, and the shuffled positions are cut into the test
    part first and the train part next. *)
Definition train_test_split {A : Type} (arr : list A) (train_size : Q)
    (random_state : Z) : result (list A * list A) :=
  if negb (Qltb 0 train_size && Qltb train_size 1) then
    Raise (ValueError "train_size should be in the (0, 1) range")
  else
    let n_samples := length arr in
    let n_train := Z.to_nat (Qfloor (n_rows_of train_size n_samples)) in
    let n_test := (n_samples - n_train)%nat in
    let perm := fst (permutation (RandomState random_state) n_samples) in
    let ind_test := firstn n_test perm in
    let ind_train := firstn n_train (skipn n_test perm) in
    Ok (take arr ind_train, take arr ind_test).

(** [DataFrame.sample(frac=..., random_state=...)]: the number of rows
    is [round(frac * len)]; the rows are drawn without replacement,
    from a generator made of the seed when one is given and from
    numpy's global generator [np_random] otherwise. *)
Definition sample (df : DataFrame) (frac : Q) (random_state : option Z)
    (np_random : rng_state) : result DataFrame * rng_state :=
  let axis_length := shape0 df in
  let n := py_round (n_rows_of frac axis_length) in
  if (n <? 0)%Z then
    (Raise (ValueError "A negative number of rows requested"), np_random)
  else if (Z.of_nat axis_length <? n)%Z then
    (Raise (ValueError "Cannot take a larger sample than population when 'replace=False'"),
     np_random)
  else
    match random_state with
    | Some seed =>
        let locs := firstn (Z.to_nat n)
                      (fst (permutation (RandomState seed) axis_length)) in
        (Ok (df_take df locs), np_random)
    | None =>
        let locs := firstn (Z.to_nat n)
                      (fst (permutation np_random axis_length)) in
        (Ok (df_take df locs), snd (permutation np_random axis_length))
    end.
End Sampling.

(* ================================================================== *)
(** * sklearn.preprocessing.LabelEncoder *)

Definition UnknownLabelError : exn :=
  ValueError "y contains previously unseen labels".

Module LabelEncoder.

(** Modelled from the spec: [LabelEncoder] is imported from
    scikit-learn and is not among the repository's files.  [fit]
    collects the distinct labels in sorted order, [transform] looks
    every label up and fails on one that is absent,
    [inverse_transform] maps codes back; this is the contract of the
    spec's Label Encoder (sorted lexical order) and what scikit-learn
    does on a column of strings. *)
Record t : Type := mk { classes_ : list string }.

Fixpoint index_of (x : string) (l : list string) : option nat :=
  match l with
  | [] => None
  | y :: l' =>
      if String.eqb x y then Some O else option_map S (index_of x l')
  end.

Definition fit (y : list string) : t := mk (np_unique String.compare y).

Definition encode (le : t) (v : string) : result Z :=
  match index_of v (classes_ le) with
  | Some i => Ok (Z.of_nat i)
  | None => Raise UnknownLabelError
  end.

Definition transform (le : t) (y : list string) : result (list Z) :=
  mapM (encode le) y.

Definition fit_transform (y : list string) : result (t * list Z) :=
  let le := fit y in
  codes <- transform le y ;; Ok (le, codes).

Definition decode (le : t) (c : Z) : result string :=
  if ((0 <=? c) && (c <? Z.of_nat (length (classes_ le))))%Z then
    Ok (nth (Z.to_nat c) (classes_ le) ""%string)
  else Raise UnknownLabelError.

Definition inverse_transform (le : t) (codes : list Z)
  : result (list string) :=
  mapM (decode le) codes.

End LabelEncoder.

(* ================================================================== *)
(** * sklearn.metrics: accuracy_score and classification_report *)

Definition count_if {A : Type} (f : A -> bool) (l : list A) : nat :=
  length (filter f l).

Definition nat_Q (n : nat) : Q := inject_Z (Z.of_nat n).

Definition Qsum (l : list Q) : Q := fold_right Qplus 0 l.

(** [np.average] / [Series.mean] of finitely many floats. *)
Definition mean (l : list Q) : Q := Qsum l / nat_Q (length l).

Definition inconsistent_length : exn :=
  ValueError "Found input variables with inconsistent numbers of samples".

(** [accuracy_score(y_true, y_pred)]: the fraction of positions where
    both agree. *)
Definition accuracy_score (y_true y_pred : list Z) : result Q :=
  if negb (length y_true =? length y_pred)%nat then Raise inconsistent_length
  else
    Ok (nat_Q (count_if (fun p => Z.eqb (fst p) (snd p)) (combine y_true y_pred))
        / nat_Q (length y_true)).

Record prfs : Type := mkPrfs {
  precision : Q;
  recall : Q;
  f1_score : Q;
  support : nat
}.

Definition safe_div (a b : nat) : Q :=
  if (b =? 0)%nat then 0 else nat_Q a / nat_Q b.

(** One class of [precision_recall_fscore_support]: a ratio with a zero
    denominator is set to 0, and so is the F-score of a class without a
    true positive. *)
Definition class_prfs (y_true y_pred : list Z) (c : Z) : prfs :=
  let tp_sum := count_if (fun p => Z.eqb (fst p) c && Z.eqb (snd p) c)
                         (combine y_true y_pred) in
  let pred_sum := count_if (Z.eqb c) y_pred in
  let true_sum := count_if (Z.eqb c) y_true in
  let p := safe_div tp_sum pred_sum in
  let r := safe_div tp_sum true_sum in
  mkPrfs p r
         (if (tp_sum =? 0)%nat then 0 else (2 # 1) * p * r / (p + r))
         true_sum.

Definition classes_mismatch : exn :=
  ValueError "Number of classes does not match size of target_names. Try specifying the labels parameter".

(** [unique_labels(y_true, y_pred)]: the classes the report is about. *)
Definition unique_labels (y_true y_pred : list Z) : list Z :=
  np_unique Z.compare (y_true ++ y_pred).

Record Report : Type := mkReport {
  per_class : list (string * prfs);
  macro_avg : prfs
}.

(** [classification_report(y_true, y_pred, target_names=...,
    output_dict=True)] with no [labels] argument: the classes are those
    found in the data, the call is refused when their number is not the
    number of target names, and the macro average is the plain mean over
    those classes. *)
Definition classification_report (y_true y_pred : list Z)
    (target_names : list string) : result Report :=
  if negb (length y_true =? length y_pred)%nat then Raise inconsistent_length
  else
    let labels := unique_labels y_true y_pred in
    if negb (length labels =? length target_names)%nat then
      Raise classes_mismatch
    else
      let scores := map (class_prfs y_true y_pred) labels in
      Ok (mkReport (combine target_names scores)
            (mkPrfs (mean (map precision scores))
                    (mean (map recall scores))
                    (mean (map f1_score scores))
                    (length y_true))).

(** The macro-F1 of the spec's Evaluator, for comparison: every class
    of the mapping, [0 .. num_labels - 1], takes part in the mean, a
    class with no true and no predicted instance with the score 0. *)
Definition spec_macro_f1 (num_labels : nat) (y_true y_pred : list Z) : Q :=
  mean (map (fun c => f1_score (class_prfs y_true y_pred (Z.of_nat c)))
            (seq 0 num_labels)).

(* ================================================================== *)
(** * The model wrappers of utils_nlp *)

(** [Processor] and [SequenceClassifier] come from
    [utils_nlp.models.transformers.sequence_classification]; the loop of
    cell 19 only calls them, so they are parameters here.  Every call
    may raise, and every call may change the world outside the notebook
    (download caches, accelerator memory, the clock).  A frame is handed
    over as a value: a wrapper that changed [df_train] or [df_test] in
    place, or drew from numpy's global generator, is not covered. *)
Class Wrappers : Type := {
  World : Type;
  processor : Type;
  dataloader : Type;
  classifier : Type;
  Processor : string -> bool -> string -> World -> result processor * World;
  create_dataloader_from_df :
    processor -> DataFrame -> string -> string -> nat -> nat -> nat -> bool ->
    World -> result dataloader * World;
  SequenceClassifier : string -> nat -> string -> World -> result classifier * World;
  fit : classifier -> dataloader -> nat -> nat -> World -> result classifier * World;
  predict : classifier -> dataloader -> nat -> World -> result (list Z) * World;
  perf_counter : World -> Q
}.

Definition endswith (s suffix : string) : bool :=
  let n := String.length s in
  let k := String.length suffix in
  (k <=? n)%nat && String.eqb (String.substring (n - k) k s) suffix.

(** One entry of [results]. *)
Record ResultRecord : Type := mkResultRecord {
  accuracy : Q;
  f1 : Q;
  time_hrs : Q
}.

(** A record whose scores are rates. *)
Definition rates (rec : ResultRecord) : Prop :=
  0 <= accuracy rec /\ accuracy rec <= 1 /\ 0 <= f1 rec /\ f1 rec <= 1.

(* ================================================================== *)
(** * The notebook's global state and its cells *)

Section Notebook.
Context {R : RandomGen} {W : Wrappers}.
Variable CACHE_DIR : string.

(** The global variables the cells read and write, numpy's global
    generator, the world of the wrappers, and the scraps glued for the
    test harness. *)
Record Notebook : Type := mkNotebook {
  df : DataFrame;
  df_train : DataFrame;
  df_test : DataFrame;
  label_encoder : option LabelEncoder.t;
  num_labels : nat;
  results : list (string * ResultRecord);
  scraps : list (string * Q);
  np_random : rng_state;
  world : World
}.

Definition set_df_train (v : DataFrame) (s : Notebook) : Notebook :=
  mkNotebook (df s) v (df_test s) (label_encoder s) (num_labels s)
             (results s) (scraps s) (np_random s) (world s).
Definition set_df_test (v : DataFrame) (s : Notebook) : Notebook :=
  mkNotebook (df s) (df_train s) v (label_encoder s) (num_labels s)
             (results s) (scraps s) (np_random s) (world s).
Definition set_label_encoder (v : option LabelEncoder.t) (s : Notebook)
  : Notebook :=
  mkNotebook (df s) (df_train s) (df_test s) v (num_labels s)
             (results s) (scraps s) (np_random s) (world s).
Definition set_num_labels (v : nat) (s : Notebook) : Notebook :=
  mkNotebook (df s) (df_train s) (df_test s) (label_encoder s) v
             (results s) (scraps s) (np_random s) (world s).
Definition set_results (v : list (string * ResultRecord)) (s : Notebook)
  : Notebook :=
  mkNotebook (df s) (df_train s) (df_test s) (label_encoder s) (num_labels s)
             v (scraps s) (np_random s) (world s).
Definition set_scraps (v : list (string * Q)) (s : Notebook) : Notebook :=
  mkNotebook (df s) (df_train s) (df_test s) (label_encoder s) (num_labels s)
             (results s) v (np_random s) (world s).
Definition set_np_random (v : rng_state) (s : Notebook) : Notebook :=
  mkNotebook (df s) (df_train s) (df_test s) (label_encoder s) (num_labels s)
             (results s) (scraps s) v (world s).
Definition set_world (v : World) (s : Notebook) : Notebook :=
  mkNotebook (df s) (df_train s) (df_test s) (label_encoder s) (num_labels s)
             (results s) (scraps s) (np_random s) v.

(** A cell is a computation on the notebook's state that may raise; the
    state reached when it raises is kept, as the kernel keeps it. *)
Definition M (A : Type) : Type := Notebook -> result A * Notebook.

Definition ret {A : Type} (a : A) : M A := fun s => (Ok a, s).

Definition bindM {A B : Type} (m : M A) (k : A -> M B) : M B :=
  fun s => match m s with
           | (Ok a, s') => k a s'
           | (Raise e, s') => (Raise e, s')
           end.

Notation "x <~ m ;; k" := (bindM m (fun x => k))
  (at level 61, m at next level, right associativity).

Definition get {A : Type} (f : Notebook -> A) : M A := fun s => (Ok (f s), s).

Definition modify (f : Notebook -> Notebook) : M unit := fun s => (Ok tt, f s).

Definition lift {A : Type} (r : result A) : M A := fun s => (r, s).

(** A call into the wrappers: it runs in the world and leaves a world. *)
Definition call {A : Type} (f : World -> result A * World) : M A :=
  fun s => let (r, w) := f (world s) in (r, set_world w s).

(** A draw from numpy's global generator. *)
Definition draw {A : Type} (f : rng_state -> result A * rng_state) : M A :=
  fun s => let (r, g) := f (np_random s) in (r, set_np_random g s).

(** [triple P m Q E]: from a state in [P], the computation [m] either
    returns [a] in a state of [Q a], or raises [e] in a state of [E e]. *)
Definition triple {A : Type} (P : Notebook -> Prop) (m : M A)
    (Q : A -> Notebook -> Prop) (E : exn -> Notebook -> Prop) : Prop :=
  forall s, P s ->
    match m s with
    | (Ok a, s') => Q a s'
    | (Raise e, s') => E e s'
    end.

(** Everything of the state but [results] and [world]. *)
Definition same_frames (s0 s : Notebook) : Prop :=
  df s = df s0 /\ df_train s = df_train s0 /\ df_test s = df_test s0 /\
  label_encoder s = label_encoder s0 /\ num_labels s = num_labels s0 /\
  scraps s = scraps s0 /\ np_random s = np_random s0.

Definition untouched (s0 s : Notebook) : Prop :=
  results s = results s0 /\ same_frames s0 s.

Fixpoint for_each {A : Type} (l : list A) (body : A -> M unit) : M unit :=
  match l with
  | [] => ret tt
  | a :: l' => bindM (body a) (fun _ => for_each l' body)
  end.

(** Cell 8: [df_train, df_test = train_test_split(df, train_size =
    TRAIN_SIZE, random_state=0)]. *)
Definition cell8 : M unit :=
  d <~ get df ;;
  parts <~ lift (train_test_split (rows d) TRAIN_SIZE 0) ;;
  _ <~ modify (set_df_train (mkDataFrame (columns d) (fst parts))) ;;
  modify (set_df_test (mkDataFrame (columns d) (snd parts))).

(** Cell 9: both frames are sampled with no [random_state] and
    re-indexed. *)
Definition cell9 : M unit :=
  d <~ get df_train ;;
  d' <~ draw (sample d TRAIN_DATA_FRACTION None) ;;
  _ <~ modify (set_df_train (reset_index d')) ;;
  t <~ get df_test ;;
  t' <~ draw (sample t TEST_DATA_FRACTION None) ;;
  modify (set_df_test (reset_index t')).

(** Cell 12: the label column of both frames is replaced by its codes. *)
Definition cell12 : M unit :=
  _ <~ modify (set_label_encoder None) ;;
  d <~ get df_train ;;
  col <~ lift (getitem d LABEL_COL) ;;
  y <~ lift (mapM as_label col) ;;
  fc <~ lift (LabelEncoder.fit_transform y) ;;
  _ <~ modify (set_label_encoder (Some (fst fc))) ;;
  d' <~ lift (setitem d LABEL_COL (map VInt (snd fc))) ;;
  _ <~ modify (set_df_train d') ;;
  t <~ get df_test ;;
  tcol <~ lift (getitem t LABEL_COL) ;;
  ty <~ lift (mapM as_label tcol) ;;
  tcodes <~ lift (LabelEncoder.transform (fst fc) ty) ;;
  t' <~ lift (setitem t LABEL_COL (map VInt tcodes)) ;;
  _ <~ modify (set_df_test t') ;;
  enc <~ lift (getitem d' LABEL_COL) ;;
  codes <~ lift (mapM as_code enc) ;;
  modify (set_num_labels (length (np_unique Z.compare codes))).

Definition classes_of (le : option LabelEncoder.t) : result (list string) :=
  match le with
  | Some e => Ok (LabelEncoder.classes_ e)
  | None => Raise (AttributeError "classes_")
  end.

(** The body of the loop of cell 19 for one model name: preprocess,
    fine-tune, predict, eval, save results. *)
Definition fine_tune_and_score (model_name : string) : M unit :=
  proc <~ call (Processor model_name (endswith model_name "uncased") CACHE_DIR) ;;
  d <~ get df_train ;;
  train_dataloader <~ call (create_dataloader_from_df proc d TEXT_COL LABEL_COL
                              MAX_LEN BATCH_SIZE NUM_GPUS true) ;;
  t <~ get df_test ;;
  test_dataloader <~ call (create_dataloader_from_df proc t TEXT_COL LABEL_COL
                             MAX_LEN BATCH_SIZE NUM_GPUS false) ;;
  k <~ get num_labels ;;
  clf <~ call (SequenceClassifier model_name k CACHE_DIR) ;;
  t_start <~ get (fun s => perf_counter (world s)) ;;
  clf' <~ call (fit clf train_dataloader NUM_EPOCHS NUM_GPUS) ;;
  t_end <~ get (fun s => perf_counter (world s)) ;;
  preds <~ call (predict clf' test_dataloader NUM_GPUS) ;;
  col <~ lift (getitem t LABEL_COL) ;;
  y_test <~ lift (mapM as_code col) ;;
  acc <~ lift (accuracy_score y_test preds) ;;
  le <~ get label_encoder ;;
  names <~ lift (classes_of le) ;;
  class_report <~ lift (classification_report y_test preds names) ;;
  res <~ get results ;;
  modify (set_results
            (assign model_name
               (mkResultRecord acc (f1_score (macro_avg class_report))
                               ((t_end - t_start) / (3600 # 1)))
               res)).

(** Cell 19: [results = {}], then the loop over the model names. *)
Definition cell19 (model_names : list string) : M unit :=
  _ <~ modify (set_results []) ;;
  for_each model_names fine_tune_and_score.

(** Cell 21 builds [df_results = pd.DataFrame(results)]: one column per
    model, one row per metric; there are no rows when there is no
    model. *)
Definition df_results (res : list (string * ResultRecord))
  : list (string * list Q) :=
  match res with
  | [] => []
  | _ => [ ("accuracy"%string, map (fun kv => accuracy (snd kv)) res);
           ("f1-score"%string, map (fun kv => f1 (snd kv)) res);
           ("time(hrs)"%string, map (fun kv => time_hrs (snd kv)) res) ]
  end.

Definition iloc (table : list (string * list Q)) (i : nat) : result (list Q) :=
  match nth_error table i with
  | Some row => Ok (snd row)
  | None => Raise (IndexError "single positional indexer is out-of-bounds")
  end.

Definition glue (name : string) (v : Q) : M unit :=
  sc <~ get scraps ;; modify (set_scraps (sc ++ [(name, v)])).

(** Cell 22: the two scalars for testing. *)
Definition cell22 : M unit :=
  res <~ get results ;;
  row0 <~ lift (iloc (df_results res) 0) ;;
  _ <~ glue "accuracy" (mean row0) ;;
  row1 <~ lift (iloc (df_results res) 1) ;;
  glue "f1" (mean row1).

End Notebook.

(* ================================================================== *)
(** * The cells that load and inspect the data (cells 5 and 11) *)

(** [col == v], element by element: a cell equals the string [v] when it
    holds that very string. *)
Definition eq_mask (col : list value) (v : string) : list bool :=
  map (fun c => match c with
                | VStr s => String.eqb s v
                | VInt _ => false
                end) col.

(** [df[mask]]: the rows whose mask is [True], in their order and with
    their index labels. *)
Fixpoint select {A : Type} (l : list A) (mask : list bool) : list A :=
  match l, mask with
  | a :: l', b :: mask' => if b then a :: select l' mask' else select l' mask'
  | _, _ => []
  end.

Definition getitem_mask (d : DataFrame) (mask : list bool) : DataFrame :=
  mkDataFrame (columns d) (select (rows d) mask).

(** The rows whose cell under [col] is the string [v]. *)
Definition cell_is (col v : string) (r : Row) : bool :=
  match lookup col (cells r) with
  | Some (VStr l) => String.eqb l v
  | _ => false
  end.

Definition count_label (l : string) (y : list string) : nat :=
  count_if (String.eqb l) y.

Fixpoint insert_desc (e : string * nat) (l : list (string * nat))
  : list (string * nat) :=
  match l with
  | [] => [e]
  | e' :: l' =>
      if (snd e' <=? snd e)%nat then e :: l else e' :: insert_desc e l'
  end.

(** [Series.value_counts()]: every distinct value with the number of its
    occurrences, the most frequent first (pandas does not fix the order
    among equal counts; here the smaller label comes first). *)
Definition value_counts (y : list string) : list (string * nat) :=
  fold_right insert_desc []
    (map (fun l => (l, count_label l y)) (np_unique String.compare y)).

Section LoadingCells.
Context {R : RandomGen} {W : Wrappers}.

Notation "x <~ m ;; k" := (bindM m (fun x => k))
  (at level 61, m at next level, right associativity).

Definition set_df (v : DataFrame) (s : Notebook) : Notebook :=
  mkNotebook v (df_train s) (df_test s) (label_encoder s) (num_labels s)
             (results s) (scraps s) (np_random s) (world s).

(** Cell 5: [df = load_pandas_df(DATA_FOLDER, "train")], the frame
    [loaded] that [utils_nlp.dataset.multinli] returns, then
    [df = df[df["gold_label"]=="neutral"]]. *)
Definition cell5 (loaded : DataFrame) : M unit :=
  _ <~ modify (set_df loaded) ;;
  d <~ get df ;;
  col <~ lift (getitem d "gold_label") ;;
  modify (set_df (getitem_mask d (eq_mask col "neutral"))).

(** Cell 11: [df_train[LABEL_COL].value_counts()]. *)
Definition cell11 : M (list (string * nat)) :=
  d <~ get df_train ;;
  col <~ lift (getitem d LABEL_COL) ;;
  y <~ lift (mapM as_label col) ;;
  ret (value_counts y).

End LoadingCells.

(* ================================================================== *)
(** * Small instances: frames, wrappers and notebooks to run the cells on *)

(** A frame with the notebook's two columns and the given labels. *)
Definition frame_of (labels : list value) : DataFrame :=
  mkDataFrame [LABEL_COL; TEXT_COL]
    (map (fun iv => mkRow (fst iv)
                      [(LABEL_COL, snd iv); (TEXT_COL, VStr "yeah i tell you what")])
         (combine (seq 0 (length labels)) labels)).

(** Wrappers that behave like a perfect classifier: a data loader is the
    label column of its frame, [predict] returns it, and [fit] raises
    when [fails model_name n] holds, [n] being the number of
    fine-tunings the world has seen; the clock advances one hour per
    fine-tuning. *)
Definition ToyWrappers (fails : string -> nat -> bool) : Wrappers := {|
  World := nat;
  processor := string;
  dataloader := list value;
  classifier := string;
  Processor := fun model_name _ _ w => (Ok model_name, w);
  create_dataloader_from_df :=
    fun _ d _ label_col _ _ _ _ w => (getitem d label_col, w);
  SequenceClassifier := fun model_name _ _ w => (Ok model_name, w);
  fit := fun clf _ _ _ w =>
           if fails clf w then (Raise (RuntimeError "CUDA out of memory"), w)
           else (Ok clf, S w);
  predict := fun _ dl _ w => (mapM as_code dl, w);
  perf_counter := fun w => nat_Q w * (3600 # 1)
|}.

Definition fails_on_roberta (model_name : string) (n : nat) : bool :=
  String.eqb model_name "roberta-base".

Definition fails_when_busy (model_name : string) (n : nat) : bool :=
  (1 <=? n)%nat.

Definition never_fails (model_name : string) (n : nat) : bool := false.

(** A notebook right before cell 19: two encoded frames and the fitted
    encoder. *)
Definition encoded_notebook (fails : string -> nat -> bool)
  : @Notebook RotateGen (ToyWrappers fails) :=
  @mkNotebook RotateGen (ToyWrappers fails)
    (frame_of [])
    (frame_of [VInt 0; VInt 1; VInt 1])
    (frame_of [VInt 1; VInt 0])
    (Some (LabelEncoder.mk ["fiction"; "travel"]%string))
    2 [] [] 0%nat 0%nat.

(** A notebook right before cell 9, with the generator in state [g]. *)
Definition split_notebook (g : nat)
  : @Notebook RotateGen (ToyWrappers never_fails) :=
  @mkNotebook RotateGen (ToyWrappers never_fails)
    (frame_of [])
    (frame_of (map VStr (flat_map (fun _ => ["slate"; "travel"]%string) (seq 0 10))))
    (frame_of (map VStr (flat_map (fun _ => ["travel"; "fiction"]%string) (seq 0 10))))
    None 0 [] [] g 0%nat.

(** A notebook right before cell 12: two sampled frames of labels. *)
Definition sampled_notebook : @Notebook RotateGen (ToyWrappers never_fails) :=
  @mkNotebook RotateGen (ToyWrappers never_fails)
    (frame_of [])
    (frame_of (map VStr ["travel"; "fiction"; "travel"]%string))
    (frame_of (map VStr ["fiction"; "travel"]%string))
    None 0 [] [] 0%nat 0%nat.

(** A notebook right before cell 8, with a frame of 40 rows. *)
Definition loaded_notebook : @Notebook RotateGen (ToyWrappers never_fails) :=
  @mkNotebook RotateGen (ToyWrappers never_fails)
    (frame_of (map VStr (flat_map (fun _ => ["slate"; "travel"]%string) (seq 0 20))))
    (frame_of []) (frame_of [])
    None 0 [] [] 0%nat 0%nat.

(* ================================================================== *)
(** * Theorems *)

Section UniqueFacts.
Context {A : Type} (cmp : A -> A -> comparison).
Hypothesis cmp_eq : forall x y, cmp x y = Eq -> x = y.

Lemma insert_sorted_In (x z : A) (l : list A) :
  In z (insert_sorted cmp x l) <-> z = x \/ In z l.
Proof.
  induction l as [|y l IH]; simpl.
  - intuition.
  - destruct (cmp x y) eqn:E; simpl.
    + apply cmp_eq in E. subst y. intuition.
    + intuition.
    + rewrite IH. intuition.
Qed.

Lemma np_unique_In (z : A) (y : list A) :
  In z (np_unique cmp y) <-> In z y.
Proof.
  induction y as [|x y IH]; simpl.
  - reflexivity.
  - rewrite insert_sorted_In, IH. intuition.
Qed.
End UniqueFacts.

Lemma index_of_None (x : string) (l : list string) :
  LabelEncoder.index_of x l = None <-> ~ In x l.
Proof.
  induction l as [|y l IH]; simpl.
  - intuition.
  - destruct (String.eqb_spec x y) as [->|Hne].
    + split; [discriminate | intros H; exfalso; apply H; now left].
    + destruct (LabelEncoder.index_of x l) eqn:E; simpl.
      * split; [discriminate|]. intros H. exfalso.
        assert (Hn : ~ In x l) by (intros Hin; apply H; now right).
        apply IH in Hn. discriminate.
      * split; [|reflexivity]. intros _ [Heq|Hin]; [congruence|].
        now apply (proj1 IH).
Qed.

Lemma index_of_Some (x : string) (l : list string) (i : nat) :
  LabelEncoder.index_of x l = Some i ->
  (i < length l)%nat /\ nth i l ""%string = x.
Proof.
  revert i. induction l as [|y l IH]; simpl; intros i H.
  - discriminate.
  - destruct (String.eqb_spec x y) as [->|Hne].
    + injection H as <-. split; [lia | reflexivity].
    + destruct (LabelEncoder.index_of x l) as [j|] eqn:E; simpl in H;
        [|discriminate].
      injection H as <-. destruct (IH j eq_refl) as [Hlt Hnth].
      split; [lia | exact Hnth].
Qed.

(** ** Sequencing of results *)



Lemma mapM_Raise {A B : Type} (f : A -> result B) (e : exn) (l : list A) :
  (forall a e', In a l -> f a = Raise e' -> e' = e) ->
  (exists a, In a l /\ f a = Raise e) ->
  mapM f l = Raise e.
Proof.
  induction l as [|a l IH]; simpl; intros Hsame [x [Hin Hx]].
  - contradiction.
  - destruct (f a) as [b|e'] eqn:Fa; simpl.
    + destruct Hin as [->|Hin]; [congruence|].
      rewrite IH; [reflexivity | | exists x; auto].
      intros a' e'' Ha'. apply Hsame. now right.
    + f_equal. apply (Hsame a); [now left | exact Fa].
Qed.


(** ** Label encoder *)

Lemma encode_Raise (le : LabelEncoder.t) (v : string) (e : exn) :
  LabelEncoder.encode le v = Raise e ->
  e = UnknownLabelError /\ ~ In v (LabelEncoder.classes_ le).
Proof.
  unfold LabelEncoder.encode.
  destruct (LabelEncoder.index_of v (LabelEncoder.classes_ le)) eqn:E.
  - discriminate.
  - intros [= <-]. split; [reflexivity | now apply index_of_None].
Qed.

Lemma encode_decode (le : LabelEncoder.t) (v : string) :
  In v (LabelEncoder.classes_ le) ->
  exists c, LabelEncoder.encode le v = Ok c /\ LabelEncoder.decode le c = Ok v.
Proof.
  intros Hin. unfold LabelEncoder.encode, LabelEncoder.decode.
  destruct (LabelEncoder.index_of v (LabelEncoder.classes_ le)) as [i|] eqn:E.
  - destruct (index_of_Some _ _ _ E) as [Hlt Hnth].
    exists (Z.of_nat i). split; [reflexivity|].
    assert (H1 : (0 <=? Z.of_nat i)%Z = true) by (apply Z.leb_le; lia).
    assert (H2 : (Z.of_nat i <? Z.of_nat (length (LabelEncoder.classes_ le)))%Z = true)
      by (apply Z.ltb_lt; lia).
    rewrite H1, H2. simpl. rewrite Nat2Z.id, Hnth. reflexivity.
  - apply index_of_None in E. contradiction.
Qed.

Lemma transform_inverse (le : LabelEncoder.t) (y : list string) :
  (forall v, In v y -> In v (LabelEncoder.classes_ le)) ->
  exists codes,
    LabelEncoder.transform le y = Ok codes /\
    LabelEncoder.inverse_transform le codes = Ok y.
Proof.
  unfold LabelEncoder.transform, LabelEncoder.inverse_transform.
  induction y as [|v y IH]; intros Hsub.
  - exists []. split; reflexivity.
  - destruct (encode_decode le v) as [c [Hc Hd]]; [apply Hsub; now left|].
    destruct IH as [codes [Ht Hi]]; [intros; apply Hsub; now right|].
    exists (c :: codes). simpl. rewrite Hc, Ht. simpl. rewrite Hd, Hi.
    split; reflexivity.
Qed.

(** C2.  [transform] rejects unseen labels: whatever the fitted mapping,
    a label sequence holding a label that is not one of its classes
    makes [transform] raise [UnknownLabelError]; no code sequence is
    returned, so no code is made up for the unseen label. *)
Theorem transform_rejects_unseen (le : LabelEncoder.t) (y : list string) :
  (exists v, In v y /\ ~ In v (LabelEncoder.classes_ le)) ->
  LabelEncoder.transform le y = Raise UnknownLabelError /\
  (forall codes, LabelEncoder.transform le y <> Ok codes).
Proof.
  intros [v [Hin Hnot]].
  assert (H : LabelEncoder.transform le y = Raise UnknownLabelError).
  { apply mapM_Raise.
    - intros a e' _ Ha. now destruct (encode_Raise _ _ _ Ha).
    - exists v. split; [exact Hin|].
      unfold LabelEncoder.encode.
      apply index_of_None in Hnot. now rewrite Hnot. }
  split; [exact H | intros codes Hc; congruence].
Qed.

Lemma transform_rejects_unseen_witness :
  LabelEncoder.transform (LabelEncoder.fit ["slate"; "fiction"; "slate"]%string)
                         ["fiction"; "travel"]%string
  = Raise UnknownLabelError.
Proof.
  apply (transform_rejects_unseen
           (LabelEncoder.fit ["slate"; "fiction"; "slate"]%string)
           ["fiction"; "travel"]%string).
  exists "travel"%string. split.
  - simpl. right. left. reflexivity.
  - vm_compute. intros [H|[H|[]]]; discriminate H.
Defined.

(** C5.  Round trip of the label encoder: for every label sequence [L],
    fitting on [L], transforming [L] and mapping the codes back through
    the same encoder gives [L] again, as a sequence. *)
Theorem label_encoder_round_trip (L : list string) :
  exists codes,
    LabelEncoder.transform (LabelEncoder.fit L) L = Ok codes /\
    LabelEncoder.inverse_transform (LabelEncoder.fit L) codes = Ok L.
Proof.
  apply transform_inverse. intros v Hv. simpl.
  apply np_unique_In; [exact String.compare_eq_iff | exact Hv].
Qed.

(** ** Positions and [take] *)

Lemma take_app {A : Type} (l : list A) (l1 l2 : list nat) :
  take l (l1 ++ l2) = take l l1 ++ take l l2.
Proof. unfold take. apply flat_map_app. Qed.

Lemma take_seq_from {A : Type} (pre l : list A) :
  take (pre ++ l) (seq (length pre) (length l)) = l.
Proof.
  revert pre. induction l as [|a l IH]; intros pre.
  - reflexivity.
  - simpl. rewrite nth_error_app2 by lia. rewrite Nat.sub_diag. simpl.
    f_equal.
    specialize (IH (pre ++ [a])).
    rewrite <- app_assoc, length_app in IH. simpl in IH.
    rewrite Nat.add_1_r in IH. exact IH.
Qed.

Lemma take_seq {A : Type} (l : list A) : take l (seq 0 (length l)) = l.
Proof. exact (take_seq_from [] l). Qed.

Lemma take_Permutation {A : Type} (l : list A) (locs : list nat) :
  Permutation locs (seq 0 (length l)) -> Permutation (take l locs) l.
Proof.
  intros H. rewrite <- (take_seq l) at 2. unfold take.
  now apply Permutation_flat_map.
Qed.

Lemma take_length {A : Type} (l : list A) (locs : list nat) :
  (forall i, In i locs -> (i < length l)%nat) ->
  length (take l locs) = length locs.
Proof.
  induction locs as [|i locs IH]; intros H; simpl.
  - reflexivity.
  - destruct (nth_error l i) eqn:E.
    + simpl. f_equal. apply IH. intros; apply H; now right.
    + apply nth_error_None in E. specialize (H i (or_introl eq_refl)). lia.
Qed.

Lemma Permutation_seq_bound (locs : list nat) (n : nat) :
  Permutation locs (seq 0 n) -> forall i, In i locs -> (i < n)%nat.
Proof.
  intros H i Hi. apply (Permutation_in _ H) in Hi.
  apply in_seq in Hi. lia.
Qed.

(** ** Rows requested of a fraction *)

Lemma nat_Q_nonneg (n : nat) : 0 <= nat_Q n.
Proof.
  unfold nat_Q. change (inject_Z 0 <= inject_Z (Z.of_nat n)).
  rewrite <- Zle_Qle. lia.
Qed.

Lemma n_rows_of_nonneg (frac : Q) (n : nat) : 0 <= frac -> 0 <= n_rows_of frac n.
Proof.
  intros H. unfold n_rows_of. apply Qmult_le_0_compat; [exact H|].
  apply nat_Q_nonneg.
Qed.

Lemma n_rows_of_le (frac : Q) (n : nat) :
  frac <= 1 -> n_rows_of frac n <= inject_Z (Z.of_nat n).
Proof.
  intros H. unfold n_rows_of.
  rewrite <- (Qmult_1_l (inject_Z (Z.of_nat n))) at 2.
  apply Qmult_le_compat_r; [exact H | apply nat_Q_nonneg].
Qed.

Lemma Qfloor_nonneg (x : Q) : 0 <= x -> (0 <= Qfloor x)%Z.
Proof.
  intros H. change 0%Z with (Qfloor 0). now apply Qfloor_resp_le.
Qed.

Lemma Qfloor_le_Z (x : Q) (n : Z) : x <= inject_Z n -> (Qfloor x <= n)%Z.
Proof.
  intros H. rewrite <- (Qfloor_Z n). now apply Qfloor_resp_le.
Qed.

Lemma Qltb_lt (x y : Q) : Qltb x y = true <-> x < y.
Proof.
  unfold Qltb. rewrite negb_true_iff. split.
  - intros H. apply Qnot_le_lt. intros Hle.
    apply Qle_bool_iff in Hle. congruence.
  - intros H. destruct (Qle_bool y x) eqn:E; [|reflexivity].
    apply Qle_bool_iff in E. exfalso. now apply (Qlt_not_le _ _ H).
Qed.



(** ** The split of cell 8 *)

Section SplitFacts.
Context {R : RandomGen}.
Hypothesis HR : permutation_ok R.

Lemma permutation_length (g : rng_state) (n : nat) :
  length (fst (permutation g n)) = n.
Proof.
  rewrite (Permutation_length (HR g n)). apply length_seq.
Qed.

Lemma permutation_NoDup (g : rng_state) (n : nat) :
  NoDup (fst (permutation g n)).
Proof.
  apply (Permutation_NoDup (Permutation_sym (HR g n))). apply seq_NoDup.
Qed.


End SplitFacts.

Lemma rotate_Permutation (k : nat) (l : list nat) : Permutation (rotate k l) l.
Proof.
  unfold rotate. etransitivity; [apply Permutation_app_comm|].
  now rewrite firstn_skipn.
Qed.

Lemma RotateGen_ok : permutation_ok RotateGen.
Proof. intros g n. simpl. apply rotate_Permutation. Qed.


(** ** The sampling of cell 9 *)

Lemma py_round_nonneg (x : Q) : 0 <= x -> (0 <= py_round x)%Z.
Proof.
  intros H. apply Qfloor_nonneg in H. unfold py_round.
  destruct (Qcompare _ _); [destruct (Z.even _)| |]; lia.
Qed.

Lemma py_round_le (x : Q) (n : Z) : x <= inject_Z n -> (py_round x <= n)%Z.
Proof.
  intros H. pose proof (Qfloor_le_Z x n H) as Hf.
  pose proof (Qfloor_le x) as Hfx.
  assert (Hhalf : 1 # 2 <= x - inject_Z (Qfloor x) -> (Qfloor x + 1 <= n)%Z).
  { intros Hh. assert (Hlt : inject_Z (Qfloor x) < inject_Z n) by lra.
    rewrite <- Zlt_Qlt in Hlt. lia. }
  unfold py_round.
  destruct (Qcompare (x - inject_Z (Qfloor x)) (1 # 2)) eqn:E.
  - apply Qeq_alt in E.
    destruct (Z.even _); [exact Hf | apply Hhalf; lra].
  - exact Hf.
  - apply Qgt_alt in E. apply Hhalf. lra.
Qed.


Section SampleFacts.
Context {R : RandomGen}.
Hypothesis HR : permutation_ok R.

Lemma sample_locs_length (g : rng_state) (n k : nat) (l : list Row) :
  length l = n -> (k <= n)%nat ->
  length (take l (firstn k (fst (permutation g n)))) = k.
Proof.
  intros Hl Hk. rewrite take_length.
  - rewrite length_firstn, (permutation_length HR). lia.
  - intros i Hi. rewrite Hl.
    apply (Permutation_seq_bound _ _ (HR g n)).
    rewrite <- (firstn_skipn k). apply in_or_app. now left.
Qed.


(** What a sample is drawn from: with a seed the subset is the same
    whatever state numpy's global generator is in, and that generator
    is left as it was; with no seed the subset is drawn from the global
    generator, and two runs agree when it yields the same shuffle. *)
Lemma sample_determined_by_generator (d : DataFrame) (frac : Q) :
  (forall (seed : Z) (g1 g2 : rng_state),
      fst (sample d frac (Some seed) g1) = fst (sample d frac (Some seed) g2) /\
      snd (sample d frac (Some seed) g1) = g1) /\
  (forall g1 g2 : rng_state,
      fst (permutation g1 (shape0 d)) = fst (permutation g2 (shape0 d)) ->
      fst (sample d frac None g1) = fst (sample d frac None g2)).
Proof.
  split.
  - intros seed g1 g2. unfold sample.
    destruct (_ <? 0)%Z; [split; reflexivity|].
    destruct (_ <? _)%Z; split; reflexivity.
  - intros g1 g2 Hg. unfold sample.
    destruct (_ <? 0)%Z; [reflexivity|].
    destruct (_ <? _)%Z; [reflexivity|].
    simpl. now rewrite Hg.
Qed.

End SampleFacts.



(** ** Ordered mappings *)

Lemma lookup_assign {V : Type} (k m : string) (v : V) (d : list (string * V)) :
  lookup k (assign m v d) = if String.eqb k m then Some v else lookup k d.
Proof.
  induction d as [|[k' v'] d IH]; simpl.
  - reflexivity.
  - destruct (String.eqb_spec m k') as [->|Hne]; simpl.
    + destruct (String.eqb k k'); reflexivity.
    + rewrite IH. destruct (String.eqb_spec k k') as [->|Hne'].
      * destruct (String.eqb_spec k' m); [congruence | reflexivity].
      * reflexivity.
Qed.

(** ** Cells as state transformers that may raise *)

Section CellFacts.
Context {R : RandomGen} {W : Wrappers}.
Variable CACHE_DIR : string.

Lemma triple_bind {A B : Type} (P : Notebook -> Prop) (m : M A) (k : A -> M B)
    (Q1 : A -> Notebook -> Prop) (Q : B -> Notebook -> Prop)
    (E : exn -> Notebook -> Prop) :
  triple P m Q1 E -> (forall a, triple (Q1 a) (k a) Q E) ->
  triple P (bindM m k) Q E.
Proof.
  intros Hm Hk s Hs. unfold bindM. specialize (Hm s Hs).
  destruct (m s) as [[a|e] s1]; [now apply Hk | exact Hm].
Qed.

Lemma untouched_refl (s : Notebook) : untouched s s.
Proof. repeat split. Qed.

Lemma triple_call {A : Type} (s0 : Notebook) (f : World -> result A * World) :
  triple (untouched s0) (call f) (fun _ => untouched s0) (fun _ => untouched s0).
Proof.
  intros s Hs. unfold call. destruct (f (world s)) as [[a|e] w]; exact Hs.
Qed.

Lemma triple_get {A : Type} (s0 : Notebook) (f : Notebook -> A) :
  triple (untouched s0) (get f) (fun _ => untouched s0) (fun _ => untouched s0).
Proof. intros s Hs. exact Hs. Qed.

Lemma triple_lift {A : Type} (s0 : Notebook) (r : result A) :
  triple (untouched s0) (lift r) (fun _ => untouched s0) (fun _ => untouched s0).
Proof. intros s Hs. unfold lift. destruct r; exact Hs. Qed.

(** One turn of the loop: when it completes, [results] has gained (or
    had replaced) the record of [model_name] and nothing else of the
    notebook's variables has changed; when it raises, [results] is what
    it was. *)
Lemma fine_tune_and_score_triple (model_name : string) (s0 : Notebook) :
  triple (untouched s0) (fine_tune_and_score CACHE_DIR model_name)
    (fun _ s => (exists rec, results s = assign model_name rec (results s0))
                /\ same_frames s0 s)
    (fun _ s => untouched s0 s).
Proof.
  unfold fine_tune_and_score.
  do 17 (eapply triple_bind;
         [ first [ apply triple_call | apply triple_get | apply triple_lift ]
         | intros ? ]).
  intros s [Hres Hfr]. unfold bindM, get, modify. simpl.
  split; [|exact Hfr]. eexists. rewrite Hres. reflexivity.
Qed.

Lemma fine_tune_and_score_Ok (model_name : string) (s s' : Notebook) :
  fine_tune_and_score CACHE_DIR model_name s = (Ok tt, s') ->
  (exists rec, results s' = assign model_name rec (results s)) /\
  same_frames s s'.
Proof.
  intros H. pose proof (fine_tune_and_score_triple model_name s s
                          (untouched_refl s)) as T.
  now rewrite H in T.
Qed.

Lemma fine_tune_and_score_Raise (model_name : string) (s s' : Notebook) (e : exn) :
  fine_tune_and_score CACHE_DIR model_name s = (Raise e, s') ->
  results s' = results s /\ same_frames s s'.
Proof.
  intros H. pose proof (fine_tune_and_score_triple model_name s s
                          (untouched_refl s)) as T.
  now rewrite H in T.
Qed.

(** ** The loop *)

Lemma for_each_app {A : Type} (l1 l2 : list A) (body : A -> M unit) (s : Notebook) :
  for_each (l1 ++ l2) body s =
  match for_each l1 body s with
  | (Ok _, s1) => for_each l2 body s1
  | (Raise e, s1) => (Raise e, s1)
  end.
Proof.
  revert s. induction l1 as [|a l1 IH]; intros s; simpl.
  - reflexivity.
  - unfold bindM. destruct (body a s) as [[u|e] s1]; [apply IH | reflexivity].
Qed.

Lemma for_each_Raise_inv {A : Type} (l : list A) (body : A -> M unit)
    (s s' : Notebook) (e : exn) :
  for_each l body s = (Raise e, s') ->
  exists pre a post s1,
    l = pre ++ a :: post /\
    for_each pre body s = (Ok tt, s1) /\
    body a s1 = (Raise e, s').
Proof.
  revert s. induction l as [|a l IH]; intros s H; simpl in H.
  - discriminate.
  - unfold bindM in H. destruct (body a s) as [[[]|e1] s1] eqn:B.
    + destruct (IH s1 H) as [pre [b [post [s2 [-> [Hpre Hb]]]]]].
      exists (a :: pre), b, post, s2. split; [reflexivity|]. split; [|exact Hb].
      simpl. unfold bindM. now rewrite B.
    + injection H as <- <-.
      exists [], a, l, s. repeat split. exact B.
Qed.

Lemma for_each_Ok_keys (names : list string) (s s' : Notebook) :
  for_each names (fine_tune_and_score CACHE_DIR) s = (Ok tt, s') ->
  (forall k, lookup k (results s') <> None <->
             In k names \/ lookup k (results s) <> None) /\
  same_frames s s'.
Proof.
  revert s. induction names as [|m names IH]; intros s H; simpl in H.
  - injection H as <-. split; [|repeat split]. intros k. tauto.
  - unfold bindM in H.
    destruct (fine_tune_and_score CACHE_DIR m s) as [[[]|e1] s1] eqn:B;
      [|discriminate].
    destruct (fine_tune_and_score_Ok _ _ _ B) as [[rec Hrec] Hfr].
    destruct (IH s1 H) as [Hkeys Hfr'].
    split.
    + intros k. rewrite Hkeys, Hrec, lookup_assign. simpl.
      destruct (String.eqb_spec k m) as [->|Hne].
      * split; [intros _; left; now left | intros _; right; discriminate].
      * split; intros [Hin|Hl]; auto.
        destruct Hin as [Heq|Hin]; [congruence | now left].
    + unfold same_frames in *. intuition congruence.
Qed.

End CellFacts.

(** ** The benchmark loop of cell 19 and the scalars of cell 22 *)

Section HarnessFacts.
Context {R : RandomGen} {W : Wrappers}.
Variable CACHE_DIR : string.

Lemma lookup_nil_results (s : Notebook) (k : string) :
  lookup k (results (set_results [] s)) = None.
Proof. reflexivity. Qed.

(** C1 (amended).  A failing model stops the run: when the turns of the
    models before [m] complete and the turn of [m] raises [e], cell 19
    raises [e] itself, in the state that turn left, whatever models
    [post] were still to come; [results] holds an entry for exactly the
    models that came before, as those turns left it. *)
Theorem failure_stops_the_run (pre post : list string) (m : string)
    (s s1 s2 : Notebook) (e : exn) :
  for_each pre (fine_tune_and_score CACHE_DIR) (set_results [] s) = (Ok tt, s1) ->
  fine_tune_and_score CACHE_DIR m s1 = (Raise e, s2) ->
  cell19 CACHE_DIR (pre ++ m :: post) s = (Raise e, s2) /\
  results s2 = results s1 /\
  (forall k, lookup k (results s2) <> None <-> In k pre).
Proof.
  intros Hpre Hm.
  destruct (fine_tune_and_score_Raise _ _ _ _ _ Hm) as [Hres _].
  destruct (for_each_Ok_keys _ _ _ _ Hpre) as [Hkeys _].
  split; [|split].
  - unfold cell19, bindM, modify. rewrite for_each_app, Hpre. simpl.
    unfold bindM. now rewrite Hm.
  - exact Hres.
  - intros k. rewrite Hres, Hkeys, lookup_nil_results. tauto.
Qed.

(** C9 (amended).  A record enters [results] only at the end of a
    completed turn: when cell 19 raises, it raises in the turn of some
    model [m] of the list, that turn has left [results] exactly as the
    completed turns before it made it, and an identifier has an entry
    if and only if it is one of the models before [m]. *)
Theorem failed_turn_adds_no_entry (names : list string) (s s' : Notebook)
    (e : exn) :
  cell19 CACHE_DIR names s = (Raise e, s') ->
  exists (pre post : list string) (m : string) (s1 : Notebook),
    names = pre ++ m :: post /\
    for_each pre (fine_tune_and_score CACHE_DIR) (set_results [] s) = (Ok tt, s1) /\
    fine_tune_and_score CACHE_DIR m s1 = (Raise e, s') /\
    results s' = results s1 /\
    (forall k, lookup k (results s') <> None <-> In k pre).
Proof.
  unfold cell19, bindM, modify. intros H.
  destruct (for_each_Raise_inv _ _ _ _ _ H) as [pre [m [post [s1 [-> [Hpre Hm]]]]]].
  exists pre, post, m, s1.
  destruct (fine_tune_and_score_Raise _ _ _ _ _ Hm) as [Hres _].
  destruct (for_each_Ok_keys _ _ _ _ Hpre) as [Hkeys _].
  repeat split; auto.
  - intros Hk. rewrite Hres in Hk. apply Hkeys in Hk.
    destruct Hk as [Hk|Hk]; [exact Hk | now rewrite lookup_nil_results in Hk].
  - intros Hk. rewrite Hres. apply Hkeys. now left.
Qed.

Lemma mean_spec (l : list Q) :
  l <> [] -> mean l * nat_Q (length l) == Qsum l.
Proof.
  intros Hl. unfold mean. field.
  destruct l as [|a l]; [congruence|].
  unfold nat_Q. simpl length. intros H.
  assert (Hpos : inject_Z 0 < inject_Z (Z.of_nat (S (length l))))
    by (rewrite <- Zlt_Qlt; lia).
  rewrite H in Hpos. now apply Qlt_irrefl in Hpos.
Qed.

(** C8.  The summary scalars: after the loop of cell 19 has completed
    for a non-empty list of models, cell 22 glues two scalars,
    [accuracy] and [f1]; they are the arithmetic means (sum divided by
    the number of entries) of the accuracy values and of the macro-F1
    values of all entries of [results]. *)
Theorem summary_scalars (names : list string) (s0 s : Notebook) :
  names <> [] ->
  cell19 CACHE_DIR names s0 = (Ok tt, s) ->
  exists (s' : Notebook) (a f : Q),
    cell22 s = (Ok tt, s') /\
    scraps s' = scraps s ++ [("accuracy"%string, a); ("f1"%string, f)] /\
    results s' = results s /\
    a = mean (map (fun kv => accuracy (snd kv)) (results s)) /\
    f = mean (map (fun kv => f1 (snd kv)) (results s)) /\
    a * nat_Q (length (results s))
      == Qsum (map (fun kv => accuracy (snd kv)) (results s)) /\
    f * nat_Q (length (results s))
      == Qsum (map (fun kv => f1 (snd kv)) (results s)).
Proof.
  intros Hne H. unfold cell19, bindM, modify in H.
  destruct (for_each_Ok_keys _ _ _ _ H) as [Hkeys _].
  assert (Hres : results s <> []).
  { destruct names as [|m names]; [congruence|].
    intros Heq. apply (proj2 (Hkeys m)); [left; now left|].
    now rewrite Heq. }
  destruct (results s) as [|kv res] eqn:E; [congruence|].
  eexists. exists (mean (map (fun kv => accuracy (snd kv)) (kv :: res))),
                  (mean (map (fun kv => f1 (snd kv)) (kv :: res))).
  split; [|split; [|split; [|split; [|split; [|split]]]]].
  - unfold cell22, bindM, get, glue, bindM, get, modify, lift. rewrite E.
    simpl. reflexivity.
  - simpl. rewrite <- app_assoc. reflexivity.
  - simpl. now rewrite E.
  - reflexivity.
  - reflexivity.
  - rewrite <- (length_map (fun kv => accuracy (snd kv))).
    apply mean_spec. discriminate.
  - rewrite <- (length_map (fun kv => f1 (snd kv))).
    apply mean_spec. discriminate.
Qed.

End HarnessFacts.

Lemma failure_stops_the_run_witness :
  fst (cell19 "cache" MODEL_NAMES (encoded_notebook fails_on_roberta))
  = Raise (RuntimeError "CUDA out of memory").
Proof.
  destruct (@failure_stops_the_run RotateGen (ToyWrappers fails_on_roberta)
              "cache" ["distilbert-base-uncased"%string]
              ["xlnet-base-cased"%string] "roberta-base"
              (encoded_notebook fails_on_roberta)
              (snd (for_each ["distilbert-base-uncased"%string]
                      (fine_tune_and_score "cache")
                      (set_results [] (encoded_notebook fails_on_roberta))))
              (snd (cell19 "cache" MODEL_NAMES (encoded_notebook fails_on_roberta)))
              (RuntimeError "CUDA out of memory")) as [H _].
  - vm_compute. reflexivity.
  - vm_compute. reflexivity.
  - change MODEL_NAMES
      with (["distilbert-base-uncased"%string]
              ++ "roberta-base"%string :: ["xlnet-base-cased"%string]).
    rewrite H. reflexivity.
Defined.

(** C1, as stated, fails: with the second of the three models failing to
    fine-tune, the exception leaves cell 19, and the third model, whose
    turn would have completed, has no entry. *)
Lemma failure_escapes_and_skips_the_rest :
  fst (cell19 "cache" MODEL_NAMES (encoded_notebook fails_on_roberta))
  = Raise (RuntimeError "CUDA out of memory") /\
  lookup "xlnet-base-cased"
         (results (snd (cell19 "cache" MODEL_NAMES
                          (encoded_notebook fails_on_roberta)))) = None /\
  fst (fine_tune_and_score "cache" "xlnet-base-cased"
         (snd (cell19 "cache" MODEL_NAMES (encoded_notebook fails_on_roberta))))
  = Ok tt.
Proof. vm_compute. repeat split. Qed.

Lemma failed_turn_adds_no_entry_witness :
  exists pre post m,
    MODEL_NAMES = pre ++ m :: post /\
    (forall k,
        lookup k (results (snd (cell19 "cache" MODEL_NAMES
                                  (encoded_notebook fails_on_roberta)))) <> None
        <-> In k pre).
Proof.
  destruct (@failed_turn_adds_no_entry RotateGen (ToyWrappers fails_on_roberta)
              "cache" MODEL_NAMES (encoded_notebook fails_on_roberta)
              (snd (cell19 "cache" MODEL_NAMES (encoded_notebook fails_on_roberta)))
              (RuntimeError "CUDA out of memory"))
    as [pre [post [m [s1 [H1 [_ [_ [_ H5]]]]]]]].
  - vm_compute. reflexivity.
  - exists pre, post, m. split; [exact H1 | exact H5].
Defined.

(** C9, as stated, fails: with the same identifier listed twice and the
    second fine-tuning running out of memory, the turn that raises is a
    turn of an identifier that has an entry, the one of its first
    turn. *)
Lemma failed_identifier_has_an_entry :
  fst (cell19 "cache" ["roberta-base"; "roberta-base"]%string
         (encoded_notebook fails_when_busy))
  = Raise (RuntimeError "CUDA out of memory") /\
  lookup "roberta-base"
         (results (snd (cell19 "cache" ["roberta-base"; "roberta-base"]%string
                          (encoded_notebook fails_when_busy))))
  <> None.
Proof. vm_compute. split; [reflexivity | discriminate]. Qed.

Lemma summary_scalars_witness :
  exists (s' : Notebook) (a f : Q),
    cell22 (snd (cell19 "cache" MODEL_NAMES (encoded_notebook never_fails)))
    = (Ok tt, s') /\
    a == 1 /\ f == 1 /\
    scraps s' = [("accuracy"%string, a); ("f1"%string, f)].
Proof.
  destruct (@summary_scalars RotateGen (ToyWrappers never_fails) "cache"
              MODEL_NAMES (encoded_notebook never_fails)
              (snd (cell19 "cache" MODEL_NAMES (encoded_notebook never_fails))))
    as [s' [a [f [H1 [H2 [_ [Ha [Hf _]]]]]]]].
  - discriminate.
  - vm_compute. reflexivity.
  - exists s', a, f. split; [exact H1|].
    split; [rewrite Ha; vm_compute; reflexivity|].
    split; [rewrite Hf; vm_compute; reflexivity|].
    exact H2.
Defined.


(** ** Sorted distinct elements *)

Section UniqueSorted.
Context {A : Type} (cmp : A -> A -> comparison) (lt : A -> A -> Prop).
Hypothesis cmp_spec : forall x y, CompareSpec (x = y) (lt x y) (lt y x) (cmp x y).
Hypothesis lt_trans : forall x y z, lt x y -> lt y z -> lt x z.
Hypothesis lt_irrefl : forall x, ~ lt x x.

Lemma cmp_eq_of_spec (x y : A) : cmp x y = Eq -> x = y.
Proof.
  intros H. destruct (cmp_spec x y) as [Heq| |]; [exact Heq | discriminate..].
Qed.

Lemma insert_sorted_sorted (x : A) (l : list A) :
  StronglySorted lt l -> StronglySorted lt (insert_sorted cmp x l).
Proof.
  induction 1 as [|y l Hs IH Hall]; simpl.
  - repeat constructor.
  - destruct (cmp_spec x y) as [Heq|Hlt|Hgt].
    + now constructor.
    + constructor; [now constructor|].
      constructor; [exact Hlt|].
      eapply Forall_impl; [|exact Hall]. intros z Hz. now apply (lt_trans x y z).
    + constructor; [exact IH|].
      apply Forall_forall. intros z Hz.
      apply (insert_sorted_In cmp cmp_eq_of_spec) in Hz.
      destruct Hz as [->|Hz]; [exact Hgt|].
      rewrite Forall_forall in Hall. now apply Hall.
Qed.

Lemma np_unique_sorted (y : list A) : StronglySorted lt (np_unique cmp y).
Proof.
  induction y as [|x y IH]; simpl.
  - constructor.
  - now apply insert_sorted_sorted.
Qed.

Lemma np_unique_NoDup (y : list A) : NoDup (np_unique cmp y).
Proof.
  pose proof (np_unique_sorted y) as H.
  induction H as [|a l Hs IH Hall].
  - constructor.
  - constructor; [|exact IH].
    intros Hin. rewrite Forall_forall in Hall.
    exact (lt_irrefl a (Hall a Hin)).
Qed.

End UniqueSorted.

(** ** The evaluator *)

Lemma unique_labels_In (y_true y_pred : list Z) (c : Z) :
  In c (unique_labels y_true y_pred) <-> In c y_true \/ In c y_pred.
Proof.
  unfold unique_labels.
  rewrite (np_unique_In Z.compare Z.compare_eq). apply in_app_iff.
Qed.

Lemma unique_labels_NoDup (y_true y_pred : list Z) :
  NoDup (unique_labels y_true y_pred).
Proof.
  apply (np_unique_NoDup Z.compare Z.lt).
  - intros x y. apply Z.compare_spec.
  - intros x y z. apply Z.lt_trans.
  - intros x. apply Z.lt_irrefl.
Qed.

Lemma code_in_range (K : nat) (c : Z) :
  (0 <= c < Z.of_nat K)%Z -> In c (map Z.of_nat (seq 0 K)).
Proof.
  intros H. rewrite <- (Z2Nat.id c) by lia.
  apply in_map. apply in_seq. lia.
Qed.

Lemma unique_labels_short (y_true y_pred : list Z) (K : nat) (c : Z) :
  (forall c', In c' y_true \/ In c' y_pred -> (0 <= c' < Z.of_nat K)%Z) ->
  (0 <= c < Z.of_nat K)%Z -> ~ In c y_true -> ~ In c y_pred ->
  (length (unique_labels y_true y_pred) < K)%nat.
Proof.
  intros Hrange Hc Ht Hp.
  assert (Hnd : NoDup (c :: unique_labels y_true y_pred)).
  { constructor; [|apply unique_labels_NoDup].
    rewrite unique_labels_In. tauto. }
  assert (Hincl : incl (c :: unique_labels y_true y_pred)
                       (map Z.of_nat (seq 0 K))).
  { intros z [<-|Hz]; [now apply code_in_range|].
    apply code_in_range, Hrange. now apply unique_labels_In. }
  pose proof (NoDup_incl_length Hnd Hincl) as Hlen.
  rewrite length_map, length_seq in Hlen. simpl in Hlen. lia.
Qed.

Lemma count_if_none {A : Type} (f : A -> bool) (l : list A) :
  (forall a, In a l -> f a = false) -> count_if f l = 0%nat.
Proof.
  unfold count_if. induction l as [|a l IH]; simpl; intros H.
  - reflexivity.
  - rewrite (H a) by now left. apply IH. intros; apply H; now right.
Qed.

Lemma class_without_instance (y_true y_pred : list Z) (c : Z) :
  ~ In c y_true -> f1_score (class_prfs y_true y_pred c) = 0.
Proof.
  intros Ht. unfold class_prfs. simpl.
  rewrite count_if_none; [reflexivity|].
  intros [t p] Hin. simpl. apply in_combine_l in Hin.
  destruct (Z.eqb_spec t c) as [->|]; [contradiction | reflexivity].
Qed.

(** C6 (amended).  What the macro-F1 averages: for non-empty true and
    predicted codes of equal length, when the report is produced its
    macro-F1 is the unweighted mean of the per-class F1 over the classes
    found among the true or predicted codes, each of which therefore
    has an instance, and their number is the number of target names;
    when it is not produced, the call has raised because these numbers
    differ.  The F1 of a class with no true and no predicted instance
    is 0, but such a class never enters the mean: with all codes among
    the [K] classes of the mapping, it makes the call raise. *)
Theorem macro_f1_over_classes_found (y_true y_pred : list Z)
    (target_names : list string) :
  y_true <> [] ->
  length y_true = length y_pred ->
  match classification_report y_true y_pred target_names with
  | Ok rep =>
      f1_score (macro_avg rep)
      = mean (map (fun c => f1_score (class_prfs y_true y_pred c))
                  (unique_labels y_true y_pred)) /\
      length (unique_labels y_true y_pred) = length target_names /\
      (forall c, In c (unique_labels y_true y_pred) <->
                 In c y_true \/ In c y_pred)
  | Raise e =>
      e = classes_mismatch /\
      length (unique_labels y_true y_pred) <> length target_names
  end /\
  (forall c, ~ In c y_true -> ~ In c y_pred ->
             f1_score (class_prfs y_true y_pred c) = 0 /\
             ~ In c (unique_labels y_true y_pred)) /\
  ((forall c', In c' y_true \/ In c' y_pred ->
               (0 <= c' < Z.of_nat (length target_names))%Z) ->
   (exists c, (0 <= c < Z.of_nat (length target_names))%Z /\
              ~ In c y_true /\ ~ In c y_pred) ->
   classification_report y_true y_pred target_names = Raise classes_mismatch).
Proof.
  intros _ Hlen. unfold classification_report.
  rewrite Hlen, Nat.eqb_refl. cbn [negb].
  split; [|split].
  - destruct (Nat.eqb_spec (length (unique_labels y_true y_pred))
                           (length target_names)) as [Heq|Hne]; cbn [negb].
    + split; [|split; [exact Heq | apply unique_labels_In]].
      simpl. now rewrite map_map.
    + split; [reflexivity | exact Hne].
  - intros c Ht Hp. split; [now apply class_without_instance|].
    rewrite unique_labels_In. tauto.
  - intros Hrange [c [Hc [Ht Hp]]].
    pose proof (unique_labels_short _ _ _ _ Hrange Hc Ht Hp) as Hshort.
    destruct (Nat.eqb_spec (length (unique_labels y_true y_pred))
                           (length target_names)) as [Heq|Hne]; cbn [negb].
    + lia.
    + reflexivity.
Qed.

Lemma macro_f1_over_classes_found_witness :
  exists rep,
    classification_report [0; 1; 1]%Z [0; 0; 1]%Z ["fiction"; "travel"]%string
    = Ok rep /\
    f1_score (macro_avg rep) == 2 # 3.
Proof.
  assert (Hne : [0; 1; 1]%Z <> []) by discriminate.
  destruct (macro_f1_over_classes_found [0; 1; 1]%Z [0; 0; 1]%Z
              ["fiction"; "travel"]%string Hne eq_refl) as [H _].
  destruct (classification_report [0; 1; 1]%Z [0; 0; 1]%Z
              ["fiction"; "travel"]%string) as [rep|e] eqn:E.
  - exists rep. split; [reflexivity|].
    destruct H as [H _]. rewrite H. vm_compute. reflexivity.
  - vm_compute in E. discriminate E.
Defined.

(** C6, as stated, fails: with two classes in the mapping and the
    second one neither among the true nor among the predicted codes,
    the spec's macro-F1 is (1 + 0) / 2, and the call of cell 19 returns
    no report at all. *)
Lemma boundary_class_is_refused :
  spec_macro_f1 2 [0; 0]%Z [0; 0]%Z == 1 # 2 /\
  classification_report [0; 0]%Z [0; 0]%Z ["fiction"; "travel"]%string
  = Raise classes_mismatch /\
  (forall rep,
      classification_report [0; 0]%Z [0; 0]%Z ["fiction"; "travel"]%string
      <> Ok rep).
Proof.
  split; [vm_compute; reflexivity|].
  split; [vm_compute; reflexivity|].
  intros rep. vm_compute. discriminate.
Qed.

(** ** Column assignment *)

Lemma has_column_app_same (cols : list string) (col : string) :
  existsb (String.eqb col) (cols ++ [col]) = true.
Proof.
  rewrite existsb_app. simpl. rewrite String.eqb_refl.
  now rewrite orb_true_r.
Qed.

Lemma has_column_app_other (cols : list string) (col c : string) :
  c <> col ->
  existsb (String.eqb c) (cols ++ [col]) = existsb (String.eqb c) cols.
Proof.
  intros Hne. rewrite existsb_app. simpl.
  apply String.eqb_neq in Hne. rewrite Hne. now rewrite !orb_false_r.
Qed.

Lemma zip_rows_get_same (col : string) (rs : list Row) (vals : list value) :
  length vals = length rs ->
  mapM (fun r => match lookup col (cells r) with
                 | Some v => Ok v
                 | None => Raise (KeyError col)
                 end)
       (zip_rows (fun r v => mkRow (index r) (assign col v (cells r))) rs vals)
  = Ok vals.
Proof.
  revert vals. induction rs as [|r rs IH]; intros [|v vals] Hlen;
    simpl in *; try discriminate; [reflexivity|].
  rewrite lookup_assign, String.eqb_refl. simpl.
  rewrite IH by lia. reflexivity.
Qed.

Lemma zip_rows_get_other (col c : string) (rs : list Row) (vals : list value) :
  length vals = length rs -> c <> col ->
  mapM (fun r => match lookup c (cells r) with
                 | Some v => Ok v
                 | None => Raise (KeyError c)
                 end)
       (zip_rows (fun r v => mkRow (index r) (assign col v (cells r))) rs vals)
  = mapM (fun r => match lookup c (cells r) with
                   | Some v => Ok v
                   | None => Raise (KeyError c)
                   end) rs.
Proof.
  intros Hlen Hne. apply String.eqb_neq in Hne.
  revert vals Hlen. induction rs as [|r rs IH]; intros [|v vals] Hlen;
    simpl in *; try discriminate; [reflexivity|].
  rewrite lookup_assign, Hne. rewrite IH by lia. reflexivity.
Qed.

Lemma zip_rows_index (col : string) (rs : list Row) (vals : list value) :
  length vals = length rs ->
  map index (zip_rows (fun r v => mkRow (index r) (assign col v (cells r))) rs vals)
  = map index rs.
Proof.
  revert vals. induction rs as [|r rs IH]; intros [|v vals] Hlen;
    simpl in *; try discriminate; [reflexivity|].
  rewrite IH by lia. reflexivity.
Qed.

Lemma setitem_Ok_inv (d d' : DataFrame) (col : string) (vals : list value) :
  setitem d col vals = Ok d' ->
  length vals = length (rows d) /\
  d' = mkDataFrame
         (if has_column d col then columns d else columns d ++ [col])
         (zip_rows (fun r v => mkRow (index r) (assign col v (cells r)))
                   (rows d) vals).
Proof.
  unfold setitem, shape0.
  destruct (Nat.eqb_spec (length vals) (length (rows d))) as [Heq|Hne];
    simpl; [|discriminate].
  intros [= <-]. split; [exact Heq | reflexivity].
Qed.

Lemma getitem_setitem_same (d d' : DataFrame) (col : string) (vals : list value) :
  setitem d col vals = Ok d' -> getitem d' col = Ok vals.
Proof.
  intros H. apply setitem_Ok_inv in H. destruct H as [Hlen ->].
  unfold getitem, has_column. simpl.
  assert (Hc : existsb (String.eqb col)
                 (if existsb (String.eqb col) (columns d)
                  then columns d else columns d ++ [col]) = true).
  { destruct (existsb (String.eqb col) (columns d)) eqn:E;
      [exact E | apply has_column_app_same]. }
  rewrite Hc. now apply zip_rows_get_same.
Qed.

Lemma getitem_setitem_other (d d' : DataFrame) (col c : string)
    (vals : list value) :
  setitem d col vals = Ok d' -> c <> col -> getitem d' c = getitem d c.
Proof.
  intros H Hne. apply setitem_Ok_inv in H. destruct H as [Hlen ->].
  unfold getitem, has_column. simpl.
  assert (Hc : existsb (String.eqb c)
                 (if existsb (String.eqb col) (columns d)
                  then columns d else columns d ++ [col])
               = existsb (String.eqb c) (columns d)).
  { destruct (existsb (String.eqb col) (columns d));
      [reflexivity | now apply has_column_app_other]. }
  rewrite Hc. destruct (existsb (String.eqb c) (columns d)); [|reflexivity].
  now apply zip_rows_get_other.
Qed.

Lemma getitem_Ok_has_column (d : DataFrame) (col : string) (vals : list value) :
  getitem d col = Ok vals -> has_column d col = true.
Proof.
  unfold getitem. destruct (has_column d col); [reflexivity | discriminate].
Qed.

Lemma setitem_frame (d d' : DataFrame) (col : string) (vals : list value) :
  setitem d col vals = Ok d' -> has_column d col = true ->
  columns d' = columns d /\ map index (rows d') = map index (rows d).
Proof.
  intros H Hc. apply setitem_Ok_inv in H. destruct H as [Hlen ->].
  simpl. rewrite Hc. split; [reflexivity | now apply zip_rows_index].
Qed.

Lemma as_label_inv (col : list value) (y : list string) :
  mapM as_label col = Ok y -> col = map VStr y.
Proof.
  revert y. induction col as [|v col IH]; simpl; intros y H.
  - injection H as <-. reflexivity.
  - destruct v as [l|z]; simpl in H; [|discriminate].
    destruct (mapM as_label col) as [y'|e]; simpl in H; [|discriminate].
    injection H as <-. simpl. f_equal. now apply IH.
Qed.

Lemma encode_Ok_decode (le : LabelEncoder.t) (v : string) (c : Z) :
  LabelEncoder.encode le v = Ok c -> LabelEncoder.decode le c = Ok v.
Proof.
  unfold LabelEncoder.encode, LabelEncoder.decode.
  destruct (LabelEncoder.index_of v (LabelEncoder.classes_ le)) as [i|] eqn:E;
    [|discriminate].
  intros [= <-]. destruct (index_of_Some _ _ _ E) as [Hlt Hnth].
  assert (H1 : (0 <=? Z.of_nat i)%Z = true) by (apply Z.leb_le; lia).
  assert (H2 : (Z.of_nat i <? Z.of_nat (length (LabelEncoder.classes_ le)))%Z = true)
    by (apply Z.ltb_lt; lia).
  rewrite H1, H2. simpl. rewrite Nat2Z.id, Hnth. reflexivity.
Qed.

Lemma transform_Ok_inverse (le : LabelEncoder.t) (y : list string) (codes : list Z) :
  LabelEncoder.transform le y = Ok codes ->
  LabelEncoder.inverse_transform le codes = Ok y.
Proof.
  unfold LabelEncoder.transform, LabelEncoder.inverse_transform.
  revert codes. induction y as [|v y IH]; simpl; intros codes H.
  - injection H as <-. reflexivity.
  - destruct (LabelEncoder.encode le v) as [c|e] eqn:Ec; simpl in H;
      [|discriminate].
    destruct (mapM (LabelEncoder.encode le) y) as [cs|e]; simpl in H;
      [|discriminate].
    injection H as <-. simpl.
    rewrite (encode_Ok_decode _ _ _ Ec). simpl.
    rewrite (IH cs eq_refl). reflexivity.
Qed.

(** ** The encoding of cell 12 *)

Section EncodingFacts.
Context {R : RandomGen} {W : Wrappers}.

Lemma bindM_Ok_inv {A B : Type} (m : M A) (k : A -> M B) (s s' : Notebook) (b : B) :
  bindM m k s = (Ok b, s') ->
  exists a s1, m s = (Ok a, s1) /\ k a s1 = (Ok b, s').
Proof.
  unfold bindM. destruct (m s) as [[a|e] s1]; [|discriminate].
  intros H. now exists a, s1.
Qed.

Lemma lift_Ok_inv {A : Type} (r : result A) (s s1 : Notebook) (a : A) :
  lift r s = (Ok a, s1) -> r = Ok a /\ s1 = s.
Proof. unfold lift. intros [= -> <-]. split; reflexivity. Qed.

Lemma get_Ok_inv {A : Type} (f : Notebook -> A) (s s1 : Notebook) (a : A) :
  get f s = (Ok a, s1) -> a = f s /\ s1 = s.
Proof. unfold get. intros [= <- <-]. split; reflexivity. Qed.

Lemma modify_Ok_inv (f : Notebook -> Notebook) (s s1 : Notebook) (u : unit) :
  modify f s = (Ok u, s1) -> s1 = f s.
Proof. unfold modify. intros [= _ <-]. reflexivity. Qed.

Ltac step_lift H E :=
  apply bindM_Ok_inv in H; destruct H as (? & ? & E & H);
  apply lift_Ok_inv in E; destruct E as [E ->].

Ltac step_get H :=
  let E := fresh "E" in
  apply bindM_Ok_inv in H; destruct H as (? & ? & E & H);
  apply get_Ok_inv in E; destruct E as [-> ->].

Ltac step_modify H :=
  let E := fresh "E" in
  apply bindM_Ok_inv in H; destruct H as (? & ? & E & H);
  apply modify_Ok_inv in E; subst.

(** C10.  Cell 12 overwrites the label column in place: when it
    completes, the label column of the train and of the test frame
    holds the integer codes where it held the label strings, the fitted
    encoder maps those codes back to the strings, and every other
    column, the column names and the index labels of both frames are
    as before. *)
Theorem label_encoding_overwrites_label_column (s s' : Notebook) :
  cell12 s = (Ok tt, s') ->
  exists (le : LabelEncoder.t) (y_train y_test : list string)
         (codes_train codes_test : list Z),
    label_encoder s' = Some le /\
    getitem (df_train s) LABEL_COL = Ok (map VStr y_train) /\
    getitem (df_test s) LABEL_COL = Ok (map VStr y_test) /\
    getitem (df_train s') LABEL_COL = Ok (map VInt codes_train) /\
    getitem (df_test s') LABEL_COL = Ok (map VInt codes_test) /\
    LabelEncoder.inverse_transform le codes_train = Ok y_train /\
    LabelEncoder.inverse_transform le codes_test = Ok y_test /\
    (forall c, c <> LABEL_COL ->
               getitem (df_train s') c = getitem (df_train s) c /\
               getitem (df_test s') c = getitem (df_test s) c) /\
    columns (df_train s') = columns (df_train s) /\
    columns (df_test s') = columns (df_test s) /\
    map index (rows (df_train s')) = map index (rows (df_train s)) /\
    map index (rows (df_test s')) = map index (rows (df_test s)).
Proof.
  intros H. unfold cell12 in H.
  step_modify H. step_get H.
  step_lift H Ecol. step_lift H Ey. step_lift H Efc.
  step_modify H.
  step_lift H Eset. step_modify H. step_get H.
  step_lift H Etcol. step_lift H Ety. step_lift H Etr. step_lift H Etset.
  step_modify H. step_lift H Eenc. step_lift H Ecodes.
  apply modify_Ok_inv in H. subst s'. simpl in *.
  unfold LabelEncoder.fit_transform in Efc.
  match type of Efc with
  | bind (LabelEncoder.transform ?le ?y) _ = _ =>
      destruct (LabelEncoder.transform le y) as [codes|e] eqn:Etrain;
        simpl in Efc; [|discriminate Efc]
  end.
  injection Efc as <-. simpl in *.
  apply as_label_inv in Ey. apply as_label_inv in Ety. subst.
  pose proof (getitem_Ok_has_column _ _ _ Ecol) as Hc1.
  pose proof (getitem_Ok_has_column _ _ _ Etcol) as Hc2.
  destruct (setitem_frame _ _ _ _ Eset Hc1) as [Hcols1 Hidx1].
  destruct (setitem_frame _ _ _ _ Etset Hc2) as [Hcols2 Hidx2].
  do 5 eexists.
  split; [reflexivity|].
  split; [exact Ecol|].
  split; [exact Etcol|].
  split; [exact (getitem_setitem_same _ _ _ _ Eset)|].
  split; [exact (getitem_setitem_same _ _ _ _ Etset)|].
  split; [exact (transform_Ok_inverse _ _ _ Etrain)|].
  split; [exact (transform_Ok_inverse _ _ _ Etr)|].
  split; [|repeat split; assumption].
  intros c Hne. split.
  - exact (getitem_setitem_other _ _ _ _ _ Eset Hne).
  - exact (getitem_setitem_other _ _ _ _ _ Etset Hne).
Qed.

End EncodingFacts.

Lemma label_encoding_overwrites_label_column_witness :
  exists s',
    cell12 sampled_notebook = (Ok tt, s') /\
    getitem (df_train s') LABEL_COL = Ok (map VInt [1; 0; 1]%Z) /\
    getitem (df_test s') LABEL_COL = Ok (map VInt [0; 1]%Z) /\
    getitem (df_train s') TEXT_COL = getitem (df_train sampled_notebook) TEXT_COL.
Proof.
  destruct (@label_encoding_overwrites_label_column RotateGen
              (ToyWrappers never_fails) sampled_notebook
              (snd (cell12 sampled_notebook)))
    as [le [y1 [y2 [c1 [c2 [_ [_ [_ [_ [_ [_ [_ [Hother _]]]]]]]]]]]]].
  - vm_compute. reflexivity.
  - exists (snd (cell12 sampled_notebook)).
    split; [vm_compute; reflexivity|].
    split; [vm_compute; reflexivity|].
    split; [vm_compute; reflexivity|].
    apply Hother. discriminate.
Defined.

(* ================================================================== *)
(** * Further properties of the cells *)

(** ** The fitted label mapping *)

Lemma string_compare_spec (x y : string) :
  CompareSpec (x = y) (OrderedTypeEx.String_as_OT.lt x y)
              (OrderedTypeEx.String_as_OT.lt y x) (String.compare x y).
Proof.
  destruct (String.compare x y) eqn:E; constructor.
  - now apply String.compare_eq_iff.
  - now apply OrderedTypeEx.String_as_OT.cmp_lt.
  - apply OrderedTypeEx.String_as_OT.cmp_lt.
    unfold OrderedTypeEx.String_as_OT.cmp.
    rewrite String.compare_antisym, E. reflexivity.
Qed.

Lemma string_lt_irrefl (x : string) : ~ OrderedTypeEx.String_as_OT.lt x x.
Proof.
  intros H. now apply (OrderedTypeEx.String_as_OT.lt_not_eq _ _ H).
Qed.

Lemma classes_sorted (L : list string) :
  StronglySorted OrderedTypeEx.String_as_OT.lt
                 (LabelEncoder.classes_ (LabelEncoder.fit L)).
Proof.
  apply np_unique_sorted.
  - exact string_compare_spec.
  - exact OrderedTypeEx.String_as_OT.lt_trans.
Qed.

Lemma classes_NoDup (L : list string) :
  NoDup (LabelEncoder.classes_ (LabelEncoder.fit L)).
Proof.
  apply (np_unique_NoDup String.compare OrderedTypeEx.String_as_OT.lt).
  - exact string_compare_spec.
  - exact OrderedTypeEx.String_as_OT.lt_trans.
  - exact string_lt_irrefl.
Qed.

Lemma classes_In (L : list string) (l : string) :
  In l (LabelEncoder.classes_ (LabelEncoder.fit L)) <-> In l L.
Proof. apply np_unique_In. exact String.compare_eq_iff. Qed.

Lemma index_of_nth (l : list string) (i : nat) :
  NoDup l -> (i < length l)%nat ->
  LabelEncoder.index_of (nth i l ""%string) l = Some i.
Proof.
  intros Hnd. revert i. induction Hnd as [|a l Hnot Hnd IH]; intros i Hi.
  - simpl in Hi. lia.
  - destruct i as [|i]; simpl.
    + now rewrite String.eqb_refl.
    + simpl in Hi.
      destruct (String.eqb_spec (nth i l ""%string) a) as [Heq|Hne].
      * exfalso. apply Hnot. rewrite <- Heq. apply nth_In. lia.
      * rewrite IH by lia. reflexivity.
Qed.

Lemma encode_Ok_inv (le : LabelEncoder.t) (v : string) (c : Z) :
  LabelEncoder.encode le v = Ok c ->
  (0 <= c < Z.of_nat (length (LabelEncoder.classes_ le)))%Z /\
  nth (Z.to_nat c) (LabelEncoder.classes_ le) ""%string = v.
Proof.
  unfold LabelEncoder.encode.
  destruct (LabelEncoder.index_of v (LabelEncoder.classes_ le)) as [i|] eqn:E;
    [|discriminate].
  intros [= <-]. destruct (index_of_Some _ _ _ E) as [Hlt Hnth].
  rewrite Nat2Z.id. split; [lia | exact Hnth].
Qed.

Lemma decode_encode (L : list string) (c : Z) :
  (0 <= c < Z.of_nat (length (LabelEncoder.classes_ (LabelEncoder.fit L))))%Z ->
  exists l,
    In l L /\
    LabelEncoder.decode (LabelEncoder.fit L) c = Ok l /\
    LabelEncoder.encode (LabelEncoder.fit L) l = Ok c.
Proof.
  intros Hc.
  set (cl := LabelEncoder.classes_ (LabelEncoder.fit L)) in *.
  exists (nth (Z.to_nat c) cl ""%string).
  assert (Hlt : (Z.to_nat c < length cl)%nat) by lia.
  split; [|split].
  - apply classes_In. fold cl. now apply nth_In.
  - unfold LabelEncoder.decode. fold cl.
    assert (H1 : (0 <=? c)%Z = true) by (apply Z.leb_le; lia).
    assert (H2 : (c <? Z.of_nat (length cl))%Z = true) by (apply Z.ltb_lt; lia).
    now rewrite H1, H2.
  - unfold LabelEncoder.encode. fold cl.
    rewrite index_of_nth; [|apply classes_NoDup | exact Hlt].
    now rewrite Z2Nat.id by lia.
Qed.

(** X1.  The fitted mapping is a bijection between the distinct labels
    and the codes [0 .. k-1]: the classes are the labels of [L] in
    strictly increasing order; every label of [L] has a code, and the
    code is below the number of classes; two labels with the same code
    are the same label; and every code below the number of classes is
    the code of a label of [L]. *)
Theorem label_mapping_bijection (L : list string) :
  let le := LabelEncoder.fit L in
  let k := Z.of_nat (length (LabelEncoder.classes_ le)) in
  StronglySorted OrderedTypeEx.String_as_OT.lt (LabelEncoder.classes_ le) /\
  (forall l, In l (LabelEncoder.classes_ le) <-> In l L) /\
  (forall l, In l L ->
             exists c, LabelEncoder.encode le l = Ok c /\ (0 <= c < k)%Z) /\
  (forall a b c, LabelEncoder.encode le a = Ok c ->
                 LabelEncoder.encode le b = Ok c -> a = b) /\
  (forall c, (0 <= c < k)%Z ->
             exists l, In l L /\ LabelEncoder.encode le l = Ok c).
Proof.
  intros le k. split; [apply classes_sorted|].
  split; [intros l; apply classes_In|].
  split; [|split].
  - intros l Hl. apply classes_In in Hl.
    destruct (encode_decode le l Hl) as [c [Hc _]].
    exists c. split; [exact Hc|]. now destruct (encode_Ok_inv _ _ _ Hc).
  - intros a b c Ha Hb.
    destruct (encode_Ok_inv _ _ _ Ha) as [_ <-].
    destruct (encode_Ok_inv _ _ _ Hb) as [_ <-]. reflexivity.
  - intros c Hc. destruct (decode_encode L c Hc) as [l [Hin [_ He]]].
    now exists l.
Qed.

Lemma decode_Raise (le : LabelEncoder.t) (c : Z) (e : exn) :
  LabelEncoder.decode le c = Raise e -> e = UnknownLabelError.
Proof.
  unfold LabelEncoder.decode. destruct (_ && _); [discriminate|].
  now intros [= <-].
Qed.

(** X2.  Codes back to labels and again to codes: with the encoder
    fitted on [L], a sequence of codes that all lie in [0 .. k-1] is
    mapped by [inverse_transform] to labels that [transform] maps to
    the same codes; a sequence holding a code outside that range makes
    [inverse_transform] raise. *)
Theorem inverse_transform_round_trip (L : list string) (codes : list Z) :
  let le := LabelEncoder.fit L in
  let k := Z.of_nat (length (LabelEncoder.classes_ le)) in
  (Forall (fun c => (0 <= c < k)%Z) codes ->
   exists labels,
     LabelEncoder.inverse_transform le codes = Ok labels /\
     LabelEncoder.transform le labels = Ok codes) /\
  (Exists (fun c => ~ (0 <= c < k)%Z) codes ->
   LabelEncoder.inverse_transform le codes = Raise UnknownLabelError).
Proof.
  cbv zeta. split.
  - induction 1 as [|c codes Hc _ IH].
    + exists []. split; reflexivity.
    + destruct (decode_encode L c Hc) as [l [_ [Hd He]]].
      destruct IH as [labels [Hi Ht]].
      exists (l :: labels).
      unfold LabelEncoder.inverse_transform, LabelEncoder.transform in *.
      cbn [mapM]. rewrite Hd, Hi. cbn [bind]. rewrite He, Ht.
      split; reflexivity.
  - intros Hex. apply mapM_Raise.
    + intros a e' _ Ha. now apply decode_Raise in Ha.
    + apply Exists_exists in Hex. destruct Hex as [c [Hin Hc]].
      exists c. split; [exact Hin|].
      unfold LabelEncoder.decode.
      destruct (Z.leb_spec 0 c); destruct (Z.ltb_spec c
        (Z.of_nat (length (LabelEncoder.classes_ (LabelEncoder.fit L)))));
        simpl; try reflexivity.
      exfalso. apply Hc. lia.
Qed.

Lemma inverse_transform_round_trip_witness :
  exists labels,
    LabelEncoder.inverse_transform
      (LabelEncoder.fit ["slate"; "fiction"; "slate"]%string) [1; 0; 1]%Z
    = Ok labels /\
    LabelEncoder.transform
      (LabelEncoder.fit ["slate"; "fiction"; "slate"]%string) labels
    = Ok [1; 0; 1]%Z.
Proof.
  apply (proj1 (inverse_transform_round_trip
                  ["slate"; "fiction"; "slate"]%string [1; 0; 1]%Z)).
  repeat constructor; vm_compute; congruence.
Defined.

(** ** More on the encoding of cell 12 *)

Lemma mapM_Ok_length {A B : Type} (f : A -> result B) (l : list A) (bs : list B) :
  mapM f l = Ok bs -> length bs = length l.
Proof.
  revert bs. induction l as [|a l IH]; simpl; intros bs H.
  - injection H as <-. reflexivity.
  - destruct (f a) as [b|e]; simpl in H; [|discriminate].
    destruct (mapM f l) as [bs'|e]; simpl in H; [|discriminate].
    injection H as <-. simpl. f_equal. now apply IH.
Qed.

Lemma as_label_VStr (y : list string) : mapM as_label (map VStr y) = Ok y.
Proof.
  induction y as [|l y IH]; simpl; [reflexivity|]. now rewrite IH.
Qed.

Lemma as_code_VInt (codes : list Z) : mapM as_code (map VInt codes) = Ok codes.
Proof.
  induction codes as [|c codes IH]; simpl; [reflexivity|]. now rewrite IH.
Qed.

Lemma getitem_Ok_length (d : DataFrame) (col : string) (vals : list value) :
  getitem d col = Ok vals -> length vals = shape0 d.
Proof.
  unfold getitem. destruct (has_column d col); [|discriminate].
  apply mapM_Ok_length.
Qed.

Lemma setitem_codes_Ok (d : DataFrame) (y : list string) (codes : list Z)
    (le : LabelEncoder.t) :
  getitem d LABEL_COL = Ok (map VStr y) ->
  LabelEncoder.transform le y = Ok codes ->
  exists d', setitem d LABEL_COL (map VInt codes) = Ok d'.
Proof.
  intros Hg Ht. apply getitem_Ok_length in Hg. apply mapM_Ok_length in Ht.
  rewrite length_map in Hg. unfold setitem.
  rewrite length_map, Ht, Hg, Nat.eqb_refl. simpl. eexists. reflexivity.
Qed.

Lemma label_mapping_codes (y : list string) :
  exists codes, LabelEncoder.transform (LabelEncoder.fit y) y = Ok codes.
Proof.
  destruct (transform_inverse (LabelEncoder.fit y) y) as [codes [H _]].
  - intros v Hv. now apply classes_In.
  - now exists codes.
Qed.

Section Cell12Facts.
Context {R : RandomGen} {W : Wrappers}.

(** Cell 12, statement by statement, on frames whose label columns hold
    strings. *)
Lemma cell12_run (s : Notebook) (y_train y_test : list string)
    (codes : list Z) (d' : DataFrame) :
  getitem (df_train s) LABEL_COL = Ok (map VStr y_train) ->
  getitem (df_test s) LABEL_COL = Ok (map VStr y_test) ->
  LabelEncoder.transform (LabelEncoder.fit y_train) y_train = Ok codes ->
  setitem (df_train s) LABEL_COL (map VInt codes) = Ok d' ->
  cell12 s =
  let s1 := set_df_train d'
              (set_label_encoder (Some (LabelEncoder.fit y_train))
                 (set_label_encoder None s)) in
  match LabelEncoder.transform (LabelEncoder.fit y_train) y_test with
  | Raise e => (Raise e, s1)
  | Ok tcodes =>
      match setitem (df_test s) LABEL_COL (map VInt tcodes) with
      | Raise e => (Raise e, s1)
      | Ok t' =>
          (Ok tt,
           set_num_labels (length (np_unique Z.compare codes))
             (set_df_test t' s1))
      end
  end.
Proof.
  intros Htr Hte Hcodes Hset.
  unfold cell12, bindM, modify, get, lift. simpl.
  rewrite Htr, as_label_VStr.
  unfold LabelEncoder.fit_transform. rewrite Hcodes. simpl.
  rewrite Hset, Hte, as_label_VStr.
  destruct (LabelEncoder.transform (LabelEncoder.fit y_train) y_test)
    as [tcodes|e]; [|reflexivity].
  destruct (setitem (df_test s) LABEL_COL (map VInt tcodes)) as [t'|e];
    [|reflexivity].
  rewrite (getitem_setitem_same _ _ _ _ Hset), as_code_VInt. reflexivity.
Qed.

(** X3.  A test label that the train frame does not have stops cell 12
    half way: the cell raises [UnknownLabelError] after the encoder is
    fitted and the label column of [df_train] is overwritten with its
    codes, while [df_test], [num_labels] and [results] are still what
    they were. *)
Theorem unseen_test_label_stops_cell12 (s : Notebook)
    (y_train y_test : list string) :
  getitem (df_train s) LABEL_COL = Ok (map VStr y_train) ->
  getitem (df_test s) LABEL_COL = Ok (map VStr y_test) ->
  (exists l, In l y_test /\ ~ In l y_train) ->
  exists (s' : Notebook) (codes : list Z),
    cell12 s = (Raise UnknownLabelError, s') /\
    LabelEncoder.transform (LabelEncoder.fit y_train) y_train = Ok codes /\
    getitem (df_train s') LABEL_COL = Ok (map VInt codes) /\
    df_test s' = df_test s /\
    label_encoder s' = Some (LabelEncoder.fit y_train) /\
    num_labels s' = num_labels s /\
    results s' = results s.
Proof.
  intros Htr Hte [l [Hin Hnot]].
  destruct (label_mapping_codes y_train) as [codes Hcodes].
  destruct (setitem_codes_Ok _ _ _ _ Htr Hcodes) as [d' Hset].
  assert (Hraise : LabelEncoder.transform (LabelEncoder.fit y_train) y_test
                   = Raise UnknownLabelError).
  { apply mapM_Raise.
    - intros a e' _ Ha. now destruct (encode_Raise _ _ _ Ha).
    - exists l. split; [exact Hin|]. unfold LabelEncoder.encode.
      assert (Hn : ~ In l (LabelEncoder.classes_ (LabelEncoder.fit y_train)))
        by (rewrite classes_In; exact Hnot).
      apply index_of_None in Hn. now rewrite Hn. }
  eexists. exists codes. split.
  - rewrite (cell12_run s y_train y_test codes d' Htr Hte Hcodes Hset).
    cbv zeta. rewrite Hraise. reflexivity.
  - simpl. split; [exact Hcodes|].
    split; [exact (getitem_setitem_same _ _ _ _ Hset)|].
    repeat split.
Qed.

(** X4.  When both label columns hold strings and every test label
    occurs among the train labels, cell 12 completes. *)
Theorem cell12_completes (s : Notebook) (y_train y_test : list string) :
  getitem (df_train s) LABEL_COL = Ok (map VStr y_train) ->
  getitem (df_test s) LABEL_COL = Ok (map VStr y_test) ->
  (forall l, In l y_test -> In l y_train) ->
  exists s' : Notebook, cell12 s = (Ok tt, s').
Proof.
  intros Htr Hte Hsub.
  destruct (label_mapping_codes y_train) as [codes Hcodes].
  destruct (setitem_codes_Ok _ _ _ _ Htr Hcodes) as [d' Hset].
  destruct (transform_inverse (LabelEncoder.fit y_train) y_test)
    as [tcodes [Htc _]].
  { intros v Hv. apply classes_In. now apply Hsub. }
  destruct (setitem_codes_Ok _ _ _ _ Hte Htc) as [t' Htset].
  eexists.
  rewrite (cell12_run s y_train y_test codes d' Htr Hte Hcodes Hset).
  cbv zeta. rewrite Htc, Htset. reflexivity.
Qed.

End Cell12Facts.

Lemma mapM_Ok_In {A B : Type} (f : A -> result B) (l : list A) (bs : list B) :
  mapM f l = Ok bs ->
  forall b, In b bs <-> exists a, In a l /\ f a = Ok b.
Proof.
  revert bs. induction l as [|a l IH]; simpl; intros bs H b.
  - injection H as <-. simpl. split; [contradiction | intros [a [[] _]]].
  - destruct (f a) as [b0|e] eqn:Fa; simpl in H; [|discriminate].
    destruct (mapM f l) as [bs'|e]; simpl in H; [|discriminate].
    injection H as <-. simpl. rewrite (IH bs' eq_refl b). split.
    + intros [<-|[a' [Hin Ha']]].
      * exists a. split; [now left | exact Fa].
      * exists a'. split; [now right | exact Ha'].
    + intros [a' [[<-|Hin] Ha']].
      * left. congruence.
      * right. now exists a'.
Qed.

Lemma codes_in_range (le : LabelEncoder.t) (y : list string) (codes : list Z) :
  LabelEncoder.transform le y = Ok codes ->
  Forall (fun c => (0 <= c < Z.of_nat (length (LabelEncoder.classes_ le)))%Z)
         codes.
Proof.
  intros H. apply Forall_forall. intros c Hc.
  apply (mapM_Ok_In _ _ _ H) in Hc. destruct Hc as [v [_ Hv]].
  now destruct (encode_Ok_inv _ _ _ Hv).
Qed.

Lemma np_unique_Z_NoDup (l : list Z) : NoDup (np_unique Z.compare l).
Proof.
  apply (np_unique_NoDup Z.compare Z.lt).
  - intros x y. apply Z.compare_spec.
  - intros x y z. apply Z.lt_trans.
  - intros x. apply Z.lt_irrefl.
Qed.

(** The codes of the labels the encoder was fitted on use every class:
    there are as many distinct codes as classes. *)
Lemma distinct_codes_count (y : list string) (codes : list Z) :
  LabelEncoder.transform (LabelEncoder.fit y) y = Ok codes ->
  length (np_unique Z.compare codes)
  = length (LabelEncoder.classes_ (LabelEncoder.fit y)).
Proof.
  intros H.
  set (k := length (LabelEncoder.classes_ (LabelEncoder.fit y))).
  assert (H1 : incl (np_unique Z.compare codes) (map Z.of_nat (seq 0 k))).
  { intros c Hc. apply (proj1 (np_unique_In Z.compare Z.compare_eq c codes)) in Hc.
    apply code_in_range.
    pose proof (codes_in_range _ _ _ H) as Hr.
    rewrite Forall_forall in Hr. now apply Hr. }
  assert (H2 : incl (map Z.of_nat (seq 0 k)) (np_unique Z.compare codes)).
  { intros c Hc. apply in_map_iff in Hc. destruct Hc as [i [<- Hi]].
    apply in_seq in Hi.
    destruct (decode_encode y (Z.of_nat i)) as [l [Hin [_ He]]];
      [unfold k in Hi; lia|].
    apply (proj2 (np_unique_In Z.compare Z.compare_eq (Z.of_nat i) codes)).
    apply (mapM_Ok_In _ _ _ H). now exists l. }
  assert (Hnd : NoDup (map Z.of_nat (seq 0 k))).
  { apply Finite.Injective_map_NoDup; [|apply seq_NoDup].
    intros a b. apply Nat2Z.inj. }
  pose proof (NoDup_incl_length (np_unique_Z_NoDup codes) H1) as L1.
  pose proof (NoDup_incl_length Hnd H2) as L2.
  rewrite length_map, length_seq in L1, L2. lia.
Qed.

Section NumLabelsFacts.
Context {R : RandomGen} {W : Wrappers}.

Ltac walk_lift H E :=
  apply bindM_Ok_inv in H; destruct H as (? & ? & E & H);
  apply lift_Ok_inv in E; destruct E as [E ->].

Ltac walk_get H :=
  let E := fresh "E" in
  apply bindM_Ok_inv in H; destruct H as (? & ? & E & H);
  apply get_Ok_inv in E; destruct E as [-> ->].

Ltac walk_modify H :=
  let E := fresh "E" in
  apply bindM_Ok_inv in H; destruct H as (? & ? & E & H);
  apply modify_Ok_inv in E; subst.

(** A completed cell 12 has read two columns of strings. *)
Lemma cell12_Ok_columns (s s' : Notebook) :
  cell12 s = (Ok tt, s') ->
  exists y_train y_test,
    getitem (df_train s) LABEL_COL = Ok (map VStr y_train) /\
    getitem (df_test s) LABEL_COL = Ok (map VStr y_test).
Proof.
  intros H. unfold cell12 in H.
  walk_modify H. walk_get H.
  walk_lift H Ecol. walk_lift H Ey. walk_lift H Efc.
  walk_modify H.
  walk_lift H Eset. walk_modify H. walk_get H.
  walk_lift H Etcol. walk_lift H Ety.
  simpl in *. apply as_label_inv in Ey. apply as_label_inv in Ety. subst.
  eexists. eexists. split; [exact Ecol | exact Etcol].
Qed.

(** X5.  After cell 12, [num_labels] is the number of classes of the
    fitted encoder, and every code in the label column of [df_train]
    and of [df_test] lies in [0 .. num_labels - 1]: the classifier of
    cell 19 is built with as many outputs as there are codes. *)
Theorem num_labels_counts_the_classes (s s' : Notebook) :
  cell12 s = (Ok tt, s') ->
  exists (le : LabelEncoder.t) (codes_train codes_test : list Z),
    label_encoder s' = Some le /\
    num_labels s' = length (LabelEncoder.classes_ le) /\
    getitem (df_train s') LABEL_COL = Ok (map VInt codes_train) /\
    getitem (df_test s') LABEL_COL = Ok (map VInt codes_test) /\
    Forall (fun c => (0 <= c < Z.of_nat (num_labels s'))%Z) codes_train /\
    Forall (fun c => (0 <= c < Z.of_nat (num_labels s'))%Z) codes_test.
Proof.
  intros H.
  destruct (cell12_Ok_columns _ _ H) as [y_train [y_test [Htr Hte]]].
  destruct (label_mapping_codes y_train) as [codes Hcodes].
  destruct (setitem_codes_Ok _ _ _ _ Htr Hcodes) as [d' Hset].
  rewrite (cell12_run s y_train y_test codes d' Htr Hte Hcodes Hset) in H.
  cbv zeta in H.
  destruct (LabelEncoder.transform (LabelEncoder.fit y_train) y_test)
    as [tcodes|e] eqn:Htc; [|discriminate H].
  destruct (setitem (df_test s) LABEL_COL (map VInt tcodes)) as [t'|e] eqn:Hts;
    [|discriminate H].
  injection H as <-. simpl.
  exists (LabelEncoder.fit y_train), codes, tcodes.
  rewrite (distinct_codes_count _ _ Hcodes).
  split; [reflexivity|]. split; [reflexivity|].
  split; [exact (getitem_setitem_same _ _ _ _ Hset)|].
  split; [exact (getitem_setitem_same _ _ _ _ Hts)|].
  split; [exact (codes_in_range _ _ _ Hcodes) | exact (codes_in_range _ _ _ Htc)].
Qed.

End NumLabelsFacts.

(** ** Bounds of the metrics *)

Lemma count_if_le {A : Type} (f : A -> bool) (l : list A) :
  (count_if f l <= length l)%nat.
Proof.
  unfold count_if. induction l as [|a l IH]; simpl; [lia|].
  destruct (f a); simpl; lia.
Qed.

Lemma count_if_combine_snd {A B : Type} (f : A * B -> bool) (g : B -> bool)
    (l1 : list A) (l2 : list B) :
  (forall p, f p = true -> g (snd p) = true) ->
  (count_if f (combine l1 l2) <= count_if g l2)%nat.
Proof.
  intros Hfg. unfold count_if. revert l2.
  induction l1 as [|a l1 IH]; intros [|b l2]; simpl; try lia.
  specialize (IH l2).
  destruct (f (a, b)) eqn:E.
  - pose proof (Hfg _ E) as Hg. simpl in Hg. rewrite Hg. simpl. lia.
  - destruct (g b); simpl; lia.
Qed.

Lemma count_if_combine_fst {A B : Type} (f : A * B -> bool) (g : A -> bool)
    (l1 : list A) (l2 : list B) :
  (forall p, f p = true -> g (fst p) = true) ->
  (count_if f (combine l1 l2) <= count_if g l1)%nat.
Proof.
  intros Hfg. unfold count_if. revert l2.
  induction l1 as [|a l1 IH]; intros [|b l2]; simpl; try lia.
  specialize (IH l2).
  destruct (f (a, b)) eqn:E.
  - pose proof (Hfg _ E) as Hg. simpl in Hg. rewrite Hg. simpl. lia.
  - destruct (g a); simpl; lia.
Qed.

Lemma nat_Q_pos (n : nat) : n <> 0%nat -> 0 < nat_Q n.
Proof.
  intros H. unfold nat_Q. change (inject_Z 0 < inject_Z (Z.of_nat n)).
  rewrite <- Zlt_Qlt. lia.
Qed.

Lemma nat_Q_le (a b : nat) : (a <= b)%nat -> nat_Q a <= nat_Q b.
Proof. intros H. unfold nat_Q. rewrite <- Zle_Qle. lia. Qed.

Lemma ratio_bounds (a b : nat) :
  (a <= b)%nat -> 0 <= nat_Q a / nat_Q b /\ nat_Q a / nat_Q b <= 1.
Proof.
  intros Hab. destruct (Nat.eq_dec b 0) as [->|Hb].
  - assert (a = 0%nat) by lia. subst. split; discriminate.
  - pose proof (nat_Q_pos b Hb) as Hpos. split.
    + apply Qle_shift_div_l; [exact Hpos|]. rewrite Qmult_0_l.
      apply nat_Q_nonneg.
    + apply Qle_shift_div_r; [exact Hpos|]. rewrite Qmult_1_l.
      now apply nat_Q_le.
Qed.

Lemma safe_div_bounds (a b : nat) :
  (a <= b)%nat -> 0 <= safe_div a b /\ safe_div a b <= 1.
Proof.
  intros Hab. unfold safe_div. destruct (b =? 0)%nat.
  - split; discriminate.
  - now apply ratio_bounds.
Qed.

Lemma harmonic_bounds (p r : Q) :
  0 <= p <= 1 -> 0 <= r <= 1 ->
  0 <= (2 # 1) * p * r / (p + r) /\ (2 # 1) * p * r / (p + r) <= 1.
Proof.
  intros [Hp0 Hp1] [Hr0 Hr1].
  destruct (Qlt_le_dec 0 (p + r)) as [Hpos|Hzero].
  - split.
    + apply Qle_shift_div_l; [exact Hpos|]. rewrite Qmult_0_l.
      apply Qmult_le_0_compat; [|exact Hr0].
      apply Qmult_le_0_compat; [discriminate | exact Hp0].
    + apply Qle_shift_div_r; [exact Hpos|]. rewrite Qmult_1_l.
      assert (H1 : p * r <= p).
      { rewrite <- (Qmult_1_r p) at 2. rewrite !(Qmult_comm p).
        now apply Qmult_le_compat_r. }
      assert (H2 : p * r <= r).
      { rewrite <- (Qmult_1_l r) at 2. now apply Qmult_le_compat_r. }
      lra.
  - assert (Hp : p == 0) by lra. assert (Hr : r == 0) by lra.
    rewrite Hp, Hr. split; discriminate.
Qed.

Lemma class_prfs_bounds (y_true y_pred : list Z) (c : Z) :
  0 <= f1_score (class_prfs y_true y_pred c) /\
  f1_score (class_prfs y_true y_pred c) <= 1.
Proof.
  unfold class_prfs. simpl.
  destruct (_ =? 0)%nat; [split; discriminate|].
  apply harmonic_bounds; apply safe_div_bounds.
  - apply count_if_combine_snd. intros [t p] H. simpl in *.
    apply andb_true_iff in H. destruct H as [_ H].
    apply Z.eqb_eq in H. subst. apply Z.eqb_refl.
  - apply count_if_combine_fst. intros [t p] H. simpl in *.
    apply andb_true_iff in H. destruct H as [H _].
    apply Z.eqb_eq in H. subst. apply Z.eqb_refl.
Qed.

Lemma Qsum_bounds (l : list Q) :
  Forall (fun q => 0 <= q /\ q <= 1) l ->
  0 <= Qsum l /\ Qsum l <= nat_Q (length l).
Proof.
  induction 1 as [|q l [Hq0 Hq1] _ [IH0 IH1]].
  - split; discriminate.
  - simpl Qsum. simpl length. unfold nat_Q in *.
    rewrite Nat2Z.inj_succ, <- Z.add_1_r, inject_Z_plus.
    change (inject_Z 1) with 1. split; lra.
Qed.

Lemma mean_bounds (l : list Q) :
  l <> [] -> Forall (fun q => 0 <= q /\ q <= 1) l ->
  0 <= mean l /\ mean l <= 1.
Proof.
  intros Hne Hall. destruct (Qsum_bounds l Hall) as [H0 H1].
  assert (Hpos : 0 < nat_Q (length l)).
  { apply nat_Q_pos. destruct l; [congruence | discriminate]. }
  unfold mean. split.
  - apply Qle_shift_div_l; [exact Hpos|]. now rewrite Qmult_0_l.
  - apply Qle_shift_div_r; [exact Hpos|]. now rewrite Qmult_1_l.
Qed.

Lemma count_if_all {A : Type} (f : A -> bool) (l : list A) :
  count_if f l = length l <-> forall a, In a l -> f a = true.
Proof.
  unfold count_if. induction l as [|a l IH]; simpl.
  - split; [intros _ a [] | reflexivity].
  - pose proof (count_if_le f l) as Hle. unfold count_if in Hle.
    destruct (f a) eqn:E; simpl.
    + split.
      * intros H b [<-|Hb]; [exact E|]. apply IH; [lia | exact Hb].
      * intros H. f_equal. apply IH. intros b Hb. apply H. now right.
    + split; [lia|]. intros H. specialize (H a (or_introl eq_refl)). congruence.
Qed.

Lemma combine_all_equal (l1 l2 : list Z) :
  length l1 = length l2 ->
  ((forall p, In p (combine l1 l2) -> Z.eqb (fst p) (snd p) = true) <-> l1 = l2).
Proof.
  revert l2. induction l1 as [|a l1 IH]; intros [|b l2] Hlen;
    simpl in Hlen; try discriminate.
  - split; [reflexivity | intros _ p []].
  - injection Hlen as Hlen. simpl. split.
    + intros H. f_equal.
      * apply Z.eqb_eq. exact (H (a, b) (or_introl eq_refl)).
      * apply IH; [exact Hlen|]. intros p Hp. apply H. now right.
    + intros [= -> ->] p [<-|Hp]; [apply Z.eqb_refl|].
      now apply (proj2 (IH l2 Hlen) eq_refl).
Qed.

Lemma ratio_one (a b : nat) :
  b <> 0%nat -> (nat_Q a / nat_Q b == 1 <-> a = b).
Proof.
  intros Hb. pose proof (nat_Q_pos b Hb) as Hpos. split.
  - intros H.
    assert (H' : nat_Q a == nat_Q b).
    { rewrite <- (Qmult_1_l (nat_Q b)), <- H. field.
      intros Hz. rewrite Hz in Hpos. now apply Qlt_irrefl in Hpos. }
    unfold nat_Q in H'.
    apply (proj1 (inject_Z_injective (Z.of_nat a) (Z.of_nat b))) in H'. lia.
  - intros ->. field. intros Hz. rewrite Hz in Hpos.
    now apply Qlt_irrefl in Hpos.
Qed.

(** X6.  [accuracy_score] is a rate: sequences of different lengths are
    refused with a [ValueError]; for non-empty sequences of one length
    the score lies between 0 and 1, and it is 1 exactly when the
    predicted codes are the true codes. *)
Theorem accuracy_score_is_a_rate (y_true y_pred : list Z) :
  (length y_true <> length y_pred ->
   accuracy_score y_true y_pred = Raise inconsistent_length) /\
  (y_true <> [] -> length y_true = length y_pred ->
   exists a, accuracy_score y_true y_pred = Ok a /\
             0 <= a /\ a <= 1 /\ (a == 1 <-> y_true = y_pred)).
Proof.
  unfold accuracy_score. split.
  - intros Hne. apply Nat.eqb_neq in Hne. now rewrite Hne.
  - intros Hne Hlen. rewrite Hlen, Nat.eqb_refl. cbn [negb].
    eexists. split; [reflexivity|].
    set (k := count_if (fun p => Z.eqb (fst p) (snd p)) (combine y_true y_pred)).
    assert (Hcl : length (combine y_true y_pred) = length y_pred).
    { rewrite length_combine, Hlen. apply Nat.min_id. }
    assert (Hk : (k <= length y_pred)%nat).
    { unfold k. rewrite <- Hcl. apply count_if_le. }
    destruct (ratio_bounds k (length y_pred) Hk) as [H0 H1].
    split; [exact H0|]. split; [exact H1|].
    rewrite ratio_one.
    + unfold k. rewrite <- Hcl at 1. rewrite count_if_all.
      now apply combine_all_equal.
    + rewrite <- Hlen. destruct y_true; [congruence | discriminate].
Qed.

Lemma accuracy_score_is_a_rate_witness :
  exists a, accuracy_score [0; 1; 1]%Z [0; 0; 1]%Z = Ok a /\ 0 <= a /\ a <= 1.
Proof.
  destruct (proj2 (accuracy_score_is_a_rate [0; 1; 1]%Z [0; 0; 1]%Z))
    as [a [H [H0 [H1 _]]]].
  - discriminate.
  - reflexivity.
  - exists a. split; [exact H|]. split; [exact H0 | exact H1].
Defined.

(** X7.  When the report is produced for non-empty codes, every
    per-class F1 and the macro-F1 lie between 0 and 1, there is one
    line per target name, and the support of the average is the number
    of samples. *)
Theorem macro_f1_is_a_rate (y_true y_pred : list Z) (target_names : list string)
    (rep : Report) :
  y_true <> [] ->
  classification_report y_true y_pred target_names = Ok rep ->
  0 <= f1_score (macro_avg rep) /\ f1_score (macro_avg rep) <= 1 /\
  Forall (fun line => 0 <= f1_score (snd line) /\ f1_score (snd line) <= 1)
         (per_class rep) /\
  map fst (per_class rep) = target_names /\
  support (macro_avg rep) = length y_true.
Proof.
  intros Hne. unfold classification_report.
  destruct (negb (length y_true =? length y_pred)%nat); [discriminate|].
  destruct (Nat.eqb_spec (length (unique_labels y_true y_pred))
                         (length target_names)) as [Hlen|]; [|discriminate].
  cbn [negb]. intros [= <-]. simpl.
  assert (Hall : Forall (fun q => 0 <= q /\ q <= 1)
                   (map f1_score (map (class_prfs y_true y_pred)
                                      (unique_labels y_true y_pred)))).
  { apply Forall_forall. intros q Hq.
    apply in_map_iff in Hq. destruct Hq as [x [<- Hx]].
    apply in_map_iff in Hx. destruct Hx as [c [<- _]].
    apply class_prfs_bounds. }
  assert (Hlabels : unique_labels y_true y_pred <> []).
  { destruct y_true as [|c y]; [congruence|].
    intros Heq.
    assert (Hin : In c (unique_labels (c :: y) y_pred))
      by (apply unique_labels_In; left; now left).
    now rewrite Heq in Hin. }
  destruct (mean_bounds _ (fun H => Hlabels (map_eq_nil _ _ (map_eq_nil _ _ H)))
              Hall) as [M0 M1].
  split; [exact M0|]. split; [exact M1|].
  split; [|split; [|reflexivity]].
  - apply Forall_forall. intros [name sc] Hin. simpl.
    apply in_combine_r in Hin. apply in_map_iff in Hin.
    destruct Hin as [c [<- _]]. apply class_prfs_bounds.
  - clear -Hlen. rewrite <- (length_map (class_prfs y_true y_pred)) in Hlen.
    revert Hlen. generalize (map (class_prfs y_true y_pred)
                                 (unique_labels y_true y_pred)).
    induction target_names as [|n names IH]; intros [|sc l] Hlen;
      simpl in *; try discriminate; [reflexivity|].
    f_equal. apply IH. lia.
Qed.

Lemma macro_f1_is_a_rate_witness :
  exists rep,
    classification_report [0; 1; 1]%Z [0; 0; 1]%Z ["fiction"; "travel"]%string
    = Ok rep /\
    0 <= f1_score (macro_avg rep) /\ f1_score (macro_avg rep) <= 1.
Proof.
  eexists. split; [vm_compute; reflexivity|].
  assert (Hne : [0; 1; 1]%Z <> []) by discriminate.
  destruct (macro_f1_is_a_rate [0; 1; 1]%Z [0; 0; 1]%Z
              ["fiction"; "travel"]%string _ Hne eq_refl) as [H0 [H1 _]].
  split; [exact H0 | exact H1].
Defined.

(** ** More on the loop of cell 19 *)

Lemma keys_assign_new {V : Type} (k : string) (v : V) (d : list (string * V)) :
  ~ In k (map fst d) -> map fst (assign k v d) = map fst d ++ [k].
Proof.
  induction d as [|[k' v'] d IH]; simpl; intros Hnot.
  - reflexivity.
  - destruct (String.eqb_spec k k') as [->|Hne].
    + exfalso. apply Hnot. now left.
    + simpl. f_equal. apply IH. intros Hin. apply Hnot. now right.
Qed.

Lemma lookup_None_keys {V : Type} (k : string) (d : list (string * V)) :
  lookup k d = None <-> ~ In k (map fst d).
Proof.
  induction d as [|[k' v'] d IH]; simpl.
  - tauto.
  - destruct (String.eqb_spec k k') as [->|Hne].
    + split; [discriminate | intros H; exfalso; apply H; now left].
    + rewrite IH. split; [intros H [Heq|Hin]; [congruence | tauto] | tauto].
Qed.

Section LoopFacts.
Context {R : RandomGen} {W : Wrappers}.
Variable CACHE_DIR : string.

Lemma for_each_Ok_order (names : list string) (s s' : Notebook) :
  NoDup names ->
  (forall k, In k names -> ~ In k (map fst (results s))) ->
  for_each names (fine_tune_and_score CACHE_DIR) s = (Ok tt, s') ->
  map fst (results s') = map fst (results s) ++ names.
Proof.
  intros Hnd. revert s. induction Hnd as [|m names Hnot Hnd IH];
    intros s Hfresh H; simpl in H.
  - injection H as <-. now rewrite app_nil_r.
  - unfold bindM in H.
    destruct (fine_tune_and_score CACHE_DIR m s) as [[[]|e] s1] eqn:B;
      [|discriminate].
    destruct (fine_tune_and_score_Ok _ _ _ _ B) as [[rec Hrec] _].
    assert (Hkeys : map fst (results s1) = map fst (results s) ++ [m]).
    { rewrite Hrec. apply keys_assign_new. apply Hfresh. now left. }
    rewrite (IH s1); [rewrite Hkeys, <- app_assoc; reflexivity | | exact H].
    intros k Hk. rewrite Hkeys. intros Hin. apply in_app_or in Hin.
    destruct Hin as [Hin|[<-|[]]].
    + apply (Hfresh k); [now right | exact Hin].
    + contradiction.
Qed.

(** X9.  The entries of [results] come in the configured order: for a
    list of distinct model names, a completed cell 19 leaves the keys
    of [results] equal to the list, and a cell 19 that raises leaves
    them equal to the names that came before the failing one. *)
Theorem results_in_configured_order (names : list string) (s : Notebook) :
  NoDup names ->
  match cell19 CACHE_DIR names s with
  | (Ok _, s') => map fst (results s') = names
  | (Raise _, s') =>
      exists pre m post, names = pre ++ m :: post /\ map fst (results s') = pre
  end.
Proof.
  intros Hnd. unfold cell19, bindM, modify.
  destruct (for_each names (fine_tune_and_score CACHE_DIR) (set_results [] s))
    as [[[]|e] s'] eqn:H.
  - apply (for_each_Ok_order names _ _ Hnd) in H; [exact H|].
    intros k _ [].
  - destruct (for_each_Raise_inv _ _ _ _ _ H)
      as [pre [m [post [s1 [-> [Hpre Hm]]]]]].
    exists pre, m, post. split; [reflexivity|].
    destruct (fine_tune_and_score_Raise _ _ _ _ _ Hm) as [-> _].
    apply (for_each_Ok_order pre _ _) in Hpre; [exact Hpre | | intros k _ []].
    now apply NoDup_app_remove_r in Hnd.
Qed.

End LoopFacts.

Lemma accuracy_score_bounds (y_true y_pred : list Z) (a : Q) :
  accuracy_score y_true y_pred = Ok a -> 0 <= a /\ a <= 1.
Proof.
  unfold accuracy_score.
  destruct (Nat.eqb_spec (length y_true) (length y_pred)) as [Hlen|];
    [|discriminate].
  cbn [negb]. intros [= <-]. apply ratio_bounds.
  etransitivity; [apply count_if_le|].
  rewrite length_combine, Hlen, Nat.min_id. lia.
Qed.

Lemma report_f1_bounds (y_true y_pred : list Z) (target_names : list string)
    (rep : Report) :
  y_true <> [] ->
  classification_report y_true y_pred target_names = Ok rep ->
  0 <= f1_score (macro_avg rep) /\ f1_score (macro_avg rep) <= 1.
Proof.
  intros Hne. unfold classification_report.
  destruct (negb (length y_true =? length y_pred)%nat); [discriminate|].
  destruct (negb (_ =? _)%nat); [discriminate|].
  intros [= <-]. simpl. apply mean_bounds.
  - intros H. apply map_eq_nil in H. apply map_eq_nil in H.
    destruct y_true as [|c y]; [congruence|].
    assert (Hin : In c (unique_labels (c :: y) y_pred))
      by (apply unique_labels_In; left; now left).
    now rewrite H in Hin.
  - apply Forall_forall. intros q Hq.
    apply in_map_iff in Hq. destruct Hq as [x [<- Hx]].
    apply in_map_iff in Hx. destruct Hx as [c [<- _]].
    apply class_prfs_bounds.
Qed.

Lemma as_code_inv (col : list value) (codes : list Z) :
  mapM as_code col = Ok codes -> col = map VInt codes.
Proof.
  revert codes. induction col as [|v col IH]; simpl; intros codes H.
  - injection H as <-. reflexivity.
  - destruct v as [l|z]; simpl in H; [discriminate|].
    destruct (mapM as_code col) as [cs|e]; simpl in H; [|discriminate].
    injection H as <-. simpl. f_equal. now apply IH.
Qed.

Section RecordFacts.
Context {R : RandomGen} {W : Wrappers}.
Variable CACHE_DIR : string.

Lemma call_Ok_inv {A : Type} (f : World -> result A * World)
    (s s1 : Notebook) (a : A) :
  call f s = (Ok a, s1) ->
  exists w, f (world s) = (Ok a, w) /\ s1 = set_world w s.
Proof.
  unfold call. destruct (f (world s)) as [r w]. intros [= -> <-].
  now exists w.
Qed.

Ltac turn_call H :=
  let E := fresh "E" in
  apply bindM_Ok_inv in H; destruct H as (? & ? & E & H);
  apply call_Ok_inv in E; destruct E as (? & _ & ->).

Ltac turn_get H :=
  let E := fresh "E" in
  apply bindM_Ok_inv in H; destruct H as (? & ? & E & H);
  apply get_Ok_inv in E; destruct E as [-> ->].

Ltac turn_lift H E :=
  apply bindM_Ok_inv in H; destruct H as (? & ? & E & H);
  apply lift_Ok_inv in E; destruct E as [E ->].

(** What a completed turn has computed: the scores of the predictions
    against the label column of [df_test], stored under the model's
    name. *)
Lemma completed_turn_record (model_name : string) (s s' : Notebook) :
  fine_tune_and_score CACHE_DIR model_name s = (Ok tt, s') ->
  exists (y_test preds : list Z) (names : list string) (acc t : Q)
         (rep : Report),
    getitem (df_test s) LABEL_COL = Ok (map VInt y_test) /\
    classes_of (label_encoder s) = Ok names /\
    accuracy_score y_test preds = Ok acc /\
    classification_report y_test preds names = Ok rep /\
    results s' = assign model_name
                   (mkResultRecord acc (f1_score (macro_avg rep)) t)
                   (results s).
Proof.
  intros H. unfold fine_tune_and_score in H.
  turn_call H. turn_get H. turn_call H. turn_get H. turn_call H.
  turn_get H. turn_call H. turn_get H. turn_call H. turn_get H.
  turn_call H.
  turn_lift H Ecol. turn_lift H Ey. turn_lift H Eacc.
  turn_get H. turn_lift H Enames. turn_lift H Erep. turn_get H.
  apply modify_Ok_inv in H. subst s'. simpl in *.
  apply as_code_inv in Ey. subst.
  do 6 eexists.
  split; [exact Ecol|]. split; [exact Enames|].
  split; [exact Eacc|]. split; [exact Erep|]. reflexivity.
Qed.

Lemma for_each_rates (names : list string) (s : Notebook) :
  shape0 (df_test s) <> 0%nat ->
  (forall k rec, lookup k (results s) = Some rec -> rates rec) ->
  forall k rec,
    lookup k (results (snd (for_each names (fine_tune_and_score CACHE_DIR) s)))
    = Some rec ->
    rates rec.
Proof.
  revert s. induction names as [|m names IH]; intros s Hne Hinv; simpl.
  - exact Hinv.
  - unfold bindM.
    destruct (fine_tune_and_score CACHE_DIR m s) as [[[]|e] s1] eqn:B.
    + destruct (fine_tune_and_score_Ok _ _ _ _ B) as [_ Hfr].
      destruct (completed_turn_record _ _ _ B)
        as [y [preds [nm [acc [t [rep [Hcol [_ [Hacc [Hrep Hres]]]]]]]]]].
      apply IH.
      * destruct Hfr as [_ [_ [-> _]]]. exact Hne.
      * intros k rec. rewrite Hres, lookup_assign.
        destruct (String.eqb k m); [|apply Hinv].
        intros [= <-]. unfold rates. simpl.
        assert (Hy : y <> []).
        { apply getitem_Ok_length in Hcol. rewrite length_map in Hcol.
          intros ->. simpl in Hcol. now apply Hne. }
        destruct (accuracy_score_bounds _ _ _ Hacc) as [A0 A1].
        destruct (report_f1_bounds _ _ _ _ Hy Hrep) as [F0 F1].
        repeat split; assumption.
    + simpl. destruct (fine_tune_and_score_Raise _ _ _ _ _ B) as [-> _].
      exact Hinv.
Qed.

(** X10.  Every record of [results] holds rates: with a non-empty test
    frame, whether cell 19 completes or raises, the accuracy and the
    macro-F1 of every entry of [results] lie between 0 and 1. *)
Theorem results_hold_rates (names : list string) (s : Notebook) :
  shape0 (df_test s) <> 0%nat ->
  forall k rec,
    lookup k (results (snd (cell19 CACHE_DIR names s))) = Some rec ->
    0 <= accuracy rec /\ accuracy rec <= 1 /\ 0 <= f1 rec /\ f1 rec <= 1.
Proof.
  intros Hne. unfold cell19, bindM, modify.
  apply (for_each_rates names (set_results [] s) Hne).
  intros k rec H. discriminate H.
Qed.

(** X11.  Cell 22 glues both scalars or none: it raises, with
    [IndexError] and the notebook unchanged, exactly when [results] is
    empty (as after a run over an empty list of models); otherwise it
    completes and has appended two scraps, [accuracy] and then [f1]. *)
Theorem cell22_glues_both_or_none (s : Notebook) :
  match cell22 s with
  | (Ok _, s') =>
      results s <> [] /\
      map fst (scraps s') = map fst (scraps s) ++ ["accuracy"; "f1"]%string
  | (Raise e, s') =>
      results s = [] /\ s' = s /\
      e = IndexError "single positional indexer is out-of-bounds"
  end /\
  cell22 (snd (cell19 CACHE_DIR [] s))
  = (Raise (IndexError "single positional indexer is out-of-bounds"),
     snd (cell19 CACHE_DIR [] s)).
Proof.
  split; [|reflexivity].
  unfold cell22, bindM, get, lift, glue, bindM, get, modify.
  destruct (results s) as [|kv res] eqn:E; simpl.
  - repeat split.
  - split; [discriminate|].
    rewrite <- app_assoc, map_app. reflexivity.
Qed.

End RecordFacts.

(** ** The selection of cell 5 *)

Lemma select_eq_mask (col v : string) (rs : list Row) (vals : list value) :
  mapM (fun r => match lookup col (cells r) with
                 | Some x => Ok x
                 | None => Raise (KeyError col)
                 end) rs = Ok vals ->
  select rs (eq_mask vals v) = filter (cell_is col v) rs.
Proof.
  revert vals. induction rs as [|r rs IH]; simpl; intros vals H.
  - injection H as <-. reflexivity.
  - unfold cell_is at 1.
    destruct (lookup col (cells r)) as [x|]; simpl in H; [|discriminate].
    destruct (mapM _ rs) as [vs|e]; simpl in H; [|discriminate].
    injection H as <-. simpl. rewrite (IH vs eq_refl).
    destruct x as [l|z]; reflexivity.
Qed.

Lemma getitem_filter_cell_is (col v : string) (rs : list Row) :
  mapM (fun r => match lookup col (cells r) with
                 | Some x => Ok x
                 | None => Raise (KeyError col)
                 end) (filter (cell_is col v) rs)
  = Ok (repeat (VStr v) (length (filter (cell_is col v) rs))).
Proof.
  induction rs as [|r rs IH]; simpl; [reflexivity|].
  destruct (cell_is col v r) eqn:E; [|exact IH].
  simpl. unfold cell_is in E.
  destruct (lookup col (cells r)) as [[l|z]|]; try discriminate.
  apply String.eqb_eq in E. subst l. simpl. now rewrite IH.
Qed.

Lemma getitem_Ok_inv (d : DataFrame) (col : string) (vals : list value) :
  getitem d col = Ok vals ->
  has_column d col = true /\
  mapM (fun r => match lookup col (cells r) with
                 | Some x => Ok x
                 | None => Raise (KeyError col)
                 end) (rows d) = Ok vals.
Proof.
  unfold getitem. destruct (has_column d col); [|discriminate].
  intros H. split; [reflexivity | exact H].
Qed.

Lemma getitem_Raise_inv (d : DataFrame) (col : string) (e : exn) :
  getitem d col = Raise e -> e = KeyError col.
Proof.
  unfold getitem. destruct (has_column d col); [|now intros [= <-]].
  induction (rows d) as [|r rs IH]; simpl; [discriminate|].
  destruct (lookup col (cells r)); simpl; [|now intros [= <-]].
  destruct (mapM _ rs) as [vs|e']; simpl; [discriminate|].
  intros [= <-]. now apply IH.
Qed.

Section Cell5Facts.
Context {R : RandomGen} {W : Wrappers}.

(** X12.  Cell 5 keeps the neutral rows: when the loaded frame has a
    [gold_label] column, [df] becomes the frame of exactly the rows
    whose [gold_label] is the string [neutral], in their order and with
    their index labels and cells, under the same columns, so that its
    [gold_label] column is constant; when it has none, the cell raises
    [KeyError] and [df] is the loaded frame.  Nothing else of the
    notebook changes. *)
Theorem cell5_keeps_the_neutral_rows (loaded : DataFrame) (s : Notebook) :
  match cell5 loaded s with
  | (Ok _, s') =>
      rows (df s') = filter (cell_is "gold_label" "neutral") (rows loaded) /\
      columns (df s') = columns loaded /\
      getitem (df s') "gold_label"
      = Ok (repeat (VStr "neutral") (shape0 (df s'))) /\
      s' = set_df (df s') s
  | (Raise e, s') =>
      e = KeyError "gold_label" /\ s' = set_df loaded s
  end.
Proof.
  unfold cell5, bindM, modify, get, lift. cbn [df set_df].
  destruct (getitem loaded "gold_label") as [vals|e] eqn:Hg.
  - destruct (getitem_Ok_inv _ _ _ Hg) as [Hc Hm].
    unfold getitem_mask, shape0. cbn [df set_df rows columns].
    rewrite (select_eq_mask _ _ _ _ Hm).
    split; [reflexivity|]. split; [reflexivity|].
    split; [|reflexivity].
    unfold getitem, has_column in *. cbn [columns rows].
    rewrite Hc. apply getitem_filter_cell_is.
  - split; [exact (getitem_Raise_inv _ _ _ Hg) | reflexivity].
Qed.

End Cell5Facts.

(** ** Suffixes of model names *)

Lemma string_length_append (p q : string) :
  String.length (p ++ q) = (String.length p + String.length q)%nat.
Proof. induction p as [|c p IH]; simpl; [reflexivity | now rewrite IH]. Qed.

Lemma substring_whole (q : string) : String.substring 0 (String.length q) q = q.
Proof. induction q as [|c q IH]; simpl; [reflexivity | now rewrite IH]. Qed.

Lemma substring_append (p q : string) :
  String.substring (String.length p) (String.length q) (p ++ q) = q.
Proof.
  induction p as [|c p IH]; simpl; [apply substring_whole | exact IH].
Qed.

Lemma substring_split (s : string) (m : nat) :
  (m <= String.length s)%nat ->
  s = (String.substring 0 m s
       ++ String.substring m (String.length s - m) s)%string.
Proof.
  revert m. induction s as [|c s IH]; intros m Hm; simpl in Hm.
  - assert (m = 0%nat) by lia. subst. reflexivity.
  - destruct m as [|m].
    + simpl. now rewrite substring_whole.
    + simpl. f_equal. apply IH. lia.
Qed.

(** X13.  [endswith] decides suffixes: [endswith s suffix] is [true]
    exactly when [s] is some prefix followed by [suffix]; cell 19 asks
    for lower-casing exactly for the model names that end in
    [uncased]. *)
Theorem endswith_iff_suffix (s suffix : string) :
  endswith s suffix = true <-> exists prefix, s = (prefix ++ suffix)%string.
Proof.
  unfold endswith. split.
  - intros H. apply andb_true_iff in H. destruct H as [Hk He].
    apply Nat.leb_le in Hk. apply String.eqb_eq in He.
    set (m := (String.length s - String.length suffix)%nat) in *.
    exists (String.substring 0 m s).
    assert (Hm : (m <= String.length s)%nat) by (unfold m; lia).
    pose proof (substring_split s m Hm) as Hs.
    replace (String.length s - m)%nat with (String.length suffix) in Hs
      by (unfold m; lia).
    rewrite He in Hs. exact Hs.
  - intros [p ->]. rewrite string_length_append.
    apply andb_true_iff. split; [apply Nat.leb_le; lia|].
    replace (String.length p + String.length suffix - String.length suffix)%nat
      with (String.length p) by lia.
    rewrite substring_append. apply String.eqb_refl.
Qed.

(** ** More on splitting and sampling *)

Lemma renumber_index (k : nat) (rs : list Row) :
  map index (renumber k rs) = seq k (length rs).
Proof.
  revert k. induction rs as [|r rs IH]; intros k; simpl;
    [reflexivity | now rewrite IH].
Qed.

Lemma renumber_cells (k : nat) (rs : list Row) :
  map cells (renumber k rs) = map cells rs.
Proof.
  revert k. induction rs as [|r rs IH]; intros k; simpl;
    [reflexivity | now rewrite IH].
Qed.

Lemma renumber_length (k : nat) (rs : list Row) :
  length (renumber k rs) = length rs.
Proof.
  rewrite <- (length_map index), renumber_index. apply length_seq.
Qed.

Lemma take_In {A : Type} (l : list A) (locs : list nat) (a : A) :
  In a (take l locs) -> In a l.
Proof.
  unfold take. intros H. apply in_flat_map in H. destruct H as [i [_ Hi]].
  destruct (nth_error l i) eqn:E; [|contradiction].
  destruct Hi as [<-|[]]. eapply nth_error_In. exact E.
Qed.

Lemma In_firstn_elim {A : Type} (n : nat) (l : list A) (a : A) :
  In a (firstn n l) -> In a l.
Proof.
  intros H. rewrite <- (firstn_skipn n l). apply in_or_app. now left.
Qed.

Lemma In_skipn_elim {A : Type} (n : nat) (l : list A) (a : A) :
  In a (skipn n l) -> In a l.
Proof.
  intros H. rewrite <- (firstn_skipn n l). apply in_or_app. now right.
Qed.

Section MoreSamplingFacts.
Context {R : RandomGen}.
Hypothesis HR : permutation_ok R.

Lemma train_test_split_sizes {A : Type} (D : list A) (r : Q) (seed : Z) :
  0 < r -> r < 1 ->
  exists tr te,
    train_test_split D r seed = Ok (tr, te) /\
    length tr = Z.to_nat (Qfloor (n_rows_of r (length D))) /\
    length te = (length D - Z.to_nat (Qfloor (n_rows_of r (length D))))%nat /\
    (forall a, In a tr \/ In a te -> In a D).
Proof.
  intros Hr0 Hr1.
  set (n := length D).
  set (x := n_rows_of r n).
  set (perm := fst (permutation (RandomState seed) n)).
  assert (Hxn : x <= inject_Z (Z.of_nat n))
    by (apply n_rows_of_le; now apply Qlt_le_weak).
  assert (Hf0 : (0 <= Qfloor x)%Z).
  { apply Qfloor_nonneg, n_rows_of_nonneg. now apply Qlt_le_weak. }
  assert (Hfn : (Qfloor x <= Z.of_nat n)%Z) by now apply Qfloor_le_Z.
  set (n_train := Z.to_nat (Qfloor x)).
  assert (Hle : (n_train <= n)%nat) by (unfold n_train; lia).
  assert (Hlen : length perm = n) by apply (permutation_length HR).
  assert (Hb : forall i, In i perm -> (i < n)%nat)
    by apply (Permutation_seq_bound _ _ (HR _ n)).
  exists (take D (firstn n_train (skipn (n - n_train) perm))),
         (take D (firstn (n - n_train) perm)).
  split; [|split; [|split]].
  - unfold train_test_split.
    apply Qltb_lt in Hr0. apply Qltb_lt in Hr1. rewrite Hr0, Hr1.
    reflexivity.
  - rewrite take_length.
    + rewrite length_firstn, length_skipn, Hlen. lia.
    + intros i Hi. apply Hb.
      apply (In_skipn_elim (n - n_train)), (In_firstn_elim n_train), Hi.
  - rewrite take_length.
    + rewrite length_firstn, Hlen. lia.
    + intros i Hi. apply Hb.
      rewrite <- (firstn_skipn (n - n_train) perm). apply in_or_app. now left.
  - intros a [Ha|Ha]; exact (take_In _ _ _ Ha).
Qed.

Lemma sample_unseeded (d : DataFrame) (frac : Q) (g : rng_state) :
  0 <= frac -> frac <= 1 ->
  let k := Z.to_nat (py_round (n_rows_of frac (shape0 d))) in
  sample d frac None g
  = (Ok (df_take d (firstn k (fst (permutation g (shape0 d))))),
     snd (permutation g (shape0 d))) /\
  (k <= shape0 d)%nat.
Proof.
  intros H0 H1. cbv zeta. unfold sample.
  pose proof (py_round_nonneg _ (n_rows_of_nonneg frac (shape0 d) H0)) as Hlo.
  pose proof (py_round_le _ _ (n_rows_of_le frac (shape0 d) H1)) as Hhi.
  destruct (Z.ltb_spec (py_round (n_rows_of frac (shape0 d))) 0); [lia|].
  destruct (Z.ltb_spec (Z.of_nat (shape0 d))
                       (py_round (n_rows_of frac (shape0 d)))); [lia|].
  split; [reflexivity | lia].
Qed.

(** X14.  Sampling draws without replacement: a sample is made of the
    rows at distinct positions of the frame, under the same columns;
    together with the rows that were not drawn it is the whole frame as
    a multiset, and a sample as large as the frame is the frame in some
    order. *)
Theorem sample_draws_distinct_rows (d d' : DataFrame) (frac : Q)
    (random_state : option Z) (g : rng_state) :
  fst (sample d frac random_state g) = Ok d' ->
  exists locs rest : list nat,
    NoDup (locs ++ rest) /\
    Permutation (locs ++ rest) (seq 0 (shape0 d)) /\
    rows d' = take (rows d) locs /\
    length locs = shape0 d' /\
    columns d' = columns d /\
    Permutation (rows d' ++ take (rows d) rest) (rows d) /\
    (shape0 d' = shape0 d -> Permutation (rows d') (rows d)).
Proof.
  unfold sample.
  destruct (_ <? 0)%Z; [discriminate|].
  destruct (_ <? _)%Z; [discriminate|].
  set (k := Z.to_nat (py_round (n_rows_of frac (shape0 d)))).
  assert (Hgen : forall g0 : rng_state,
    Ok (df_take d (firstn k (fst (permutation g0 (shape0 d))))) = Ok d' ->
    exists locs rest : list nat,
      NoDup (locs ++ rest) /\
      Permutation (locs ++ rest) (seq 0 (shape0 d)) /\
      rows d' = take (rows d) locs /\
      length locs = shape0 d' /\
      columns d' = columns d /\
      Permutation (rows d' ++ take (rows d) rest) (rows d) /\
      (shape0 d' = shape0 d -> Permutation (rows d') (rows d))).
  { intros g0 [= <-].
    set (perm := fst (permutation g0 (shape0 d))).
    assert (Hp : Permutation (firstn k perm ++ skipn k perm) (seq 0 (shape0 d)))
      by (rewrite firstn_skipn; apply HR).
    assert (Hlocs : length (take (rows d) (firstn k perm))
                    = length (firstn k perm)).
    { apply take_length. intros i Hi.
      apply (Permutation_seq_bound _ _ Hp). apply in_or_app. now left. }
    exists (firstn k perm), (skipn k perm).
    split; [rewrite firstn_skipn; apply (permutation_NoDup HR)|].
    split; [exact Hp|].
    split; [reflexivity|].
    split; [unfold shape0, df_take; simpl; now rewrite Hlocs|].
    split; [reflexivity|].
    split.
    - simpl. rewrite <- take_app. now apply take_Permutation.
    - unfold shape0, df_take. simpl. rewrite Hlocs. intros Hfull.
      apply take_Permutation.
      assert (Hk : firstn k perm = perm).
      { rewrite <- (firstn_skipn k perm) at 2.
        assert (Hs : skipn k perm = []).
        { apply length_zero_iff_nil.
          pose proof (f_equal (@length nat) (firstn_skipn k perm)) as Hl.
          rewrite length_app in Hl.
          assert (Hn : length perm = shape0 d)
            by apply (permutation_length HR).
          unfold shape0 in *. lia. }
        rewrite Hs. now rewrite app_nil_r. }
      rewrite Hk. apply HR. }
  destruct random_state as [seed|]; simpl; apply Hgen.
Qed.

End MoreSamplingFacts.

Section SplitSampleFacts.
Context {R : RandomGen} {W : Wrappers}.
Hypothesis HR : permutation_ok R.

Lemma cell8_run (s : Notebook) :
  exists tr te,
    cell8 s = (Ok tt, set_df_test (mkDataFrame (columns (df s)) te)
                        (set_df_train (mkDataFrame (columns (df s)) tr) s)) /\
    length tr = Z.to_nat (Qfloor (n_rows_of TRAIN_SIZE (shape0 (df s)))) /\
    length te = (shape0 (df s)
                 - Z.to_nat (Qfloor (n_rows_of TRAIN_SIZE (shape0 (df s)))))%nat /\
    (forall r, In r tr \/ In r te -> In r (rows (df s))).
Proof.
  destruct (train_test_split_sizes HR (rows (df s)) TRAIN_SIZE 0)
    as [tr [te [Hsplit [Ltr [Lte Hin]]]]]; [reflexivity | reflexivity |].
  exists tr, te. split; [|split; [exact Ltr | split; [exact Lte | exact Hin]]].
  unfold cell8, bindM, get, lift, modify. rewrite Hsplit. reflexivity.
Qed.

Lemma cell9_run (s : Notebook) :
  let k1 := Z.to_nat (py_round (n_rows_of TRAIN_DATA_FRACTION
                                          (shape0 (df_train s)))) in
  let g1 := snd (permutation (np_random s) (shape0 (df_train s))) in
  let k2 := Z.to_nat (py_round (n_rows_of TEST_DATA_FRACTION
                                          (shape0 (df_test s)))) in
  cell9 s
  = (Ok tt,
     set_df_test
       (reset_index
          (df_take (df_test s)
             (firstn k2 (fst (permutation g1 (shape0 (df_test s)))))))
       (set_np_random (snd (permutation g1 (shape0 (df_test s))))
          (set_df_train
             (reset_index
                (df_take (df_train s)
                   (firstn k1 (fst (permutation (np_random s)
                                                (shape0 (df_train s)))))))
             (set_np_random g1 s)))).
Proof.
  cbv zeta. unfold cell9, bindM, get, lift, modify, draw.
  cbn [np_random df_train df_test set_np_random set_df_train set_df_test].
  destruct (sample_unseeded (df_train s) TRAIN_DATA_FRACTION (np_random s))
    as [E1 _]; [discriminate | discriminate |].
  rewrite E1.
  cbn [np_random df_train df_test set_np_random set_df_train set_df_test].
  destruct (sample_unseeded (df_test s) TEST_DATA_FRACTION
              (snd (permutation (np_random s) (shape0 (df_train s)))))
    as [E2 _]; [discriminate | discriminate |].
  rewrite E2. reflexivity.
Qed.

Lemma sampled_frame (d : DataFrame) (k : nat) (g : rng_state) :
  (k <= shape0 d)%nat ->
  let d' := reset_index (df_take d (firstn k (fst (permutation g (shape0 d))))) in
  shape0 d' = k /\
  map index (rows d') = seq 0 k /\
  columns d' = columns d /\
  (forall r, In r (rows d') ->
             exists r0, In r0 (rows d) /\ cells r = cells r0).
Proof.
  intros Hk. cbv zeta. unfold reset_index, df_take, shape0. simpl.
  assert (Hlen : length (take (rows d) (firstn k (fst (permutation g (length (rows d))))))
                 = k)
    by (apply (sample_locs_length HR); [reflexivity | exact Hk]).
  split; [now rewrite renumber_length|].
  split; [now rewrite renumber_index, Hlen|].
  split; [reflexivity|].
  intros r Hr.
  assert (Hc : In (cells r)
                  (map cells (take (rows d)
                     (firstn k (fst (permutation g (length (rows d))))))))
    by (rewrite <- (renumber_cells 0); now apply in_map).
  apply in_map_iff in Hc. destruct Hc as [r0 [Heq Hin]].
  exists r0. split; [exact (take_In _ _ _ Hin) | now symmetry].
Qed.

(** X15.  Cells 8 and 9 together: from any frame [df] they complete;
    [df_train] has [round(0.05 * floor(0.75 * n))] rows and [df_test]
    has [round(0.05 * (n - floor(0.75 * n)))] rows, [n] being the
    number of rows of [df]; both have the columns of [df], index
    labels 0, 1, 2, ... and rows whose cells are those of rows of
    [df]; [df] and [results] are untouched. *)
Theorem split_then_sample (s : Notebook) :
  exists s' : Notebook,
    bindM cell8 (fun _ => cell9) s = (Ok tt, s') /\
    (let n := shape0 (df s) in
     let n_train := Z.to_nat (Qfloor (n_rows_of TRAIN_SIZE n)) in
     shape0 (df_train s')
     = Z.to_nat (py_round (n_rows_of TRAIN_DATA_FRACTION n_train)) /\
     shape0 (df_test s')
     = Z.to_nat (py_round (n_rows_of TEST_DATA_FRACTION (n - n_train)))) /\
    map index (rows (df_train s')) = seq 0 (shape0 (df_train s')) /\
    map index (rows (df_test s')) = seq 0 (shape0 (df_test s')) /\
    columns (df_train s') = columns (df s) /\
    columns (df_test s') = columns (df s) /\
    (forall r, In r (rows (df_train s')) \/ In r (rows (df_test s')) ->
               exists r0, In r0 (rows (df s)) /\ cells r = cells r0) /\
    df s' = df s /\ results s' = results s.
Proof.
  destruct (cell8_run s) as [tr [te [H8 [Ltr [Lte Hin]]]]].
  eexists. split.
  - unfold bindM at 1. rewrite H8. apply cell9_run.
  - cbv zeta.
    cbn [df df_train df_test results set_df_train set_df_test set_np_random
         np_random].
    set (d1 := mkDataFrame (columns (df s)) tr).
    set (d2 := mkDataFrame (columns (df s)) te).
    assert (S1 : shape0 d1
                 = Z.to_nat (Qfloor (n_rows_of TRAIN_SIZE (shape0 (df s)))))
      by exact Ltr.
    assert (S2 : shape0 d2
                 = (shape0 (df s)
                    - Z.to_nat (Qfloor (n_rows_of TRAIN_SIZE (shape0 (df s)))))%nat)
      by exact Lte.
    destruct (sample_unseeded d1 TRAIN_DATA_FRACTION (np_random s))
      as [_ K1]; [discriminate | discriminate |].
    destruct (sample_unseeded d2 TEST_DATA_FRACTION
                (snd (permutation (np_random s) (shape0 d1))))
      as [_ K2]; [discriminate | discriminate |].
    cbv zeta in K1, K2.
    destruct (sampled_frame d1 _ (np_random s) K1) as [A1 [A2 [A3 A4]]].
    destruct (sampled_frame d2 _ (snd (permutation (np_random s) (shape0 d1))) K2)
      as [B1 [B2 [B3 B4]]].
    cbv zeta in A1, A2, A3, A4, B1, B2, B3, B4.
    split; [split|].
    + rewrite A1, S1. reflexivity.
    + rewrite B1, S2. reflexivity.
    + split; [now rewrite A1|]. split; [now rewrite B1|].
      split; [exact A3|]. split; [exact B3|].
      split; [|split; reflexivity].
      intros r [Hr|Hr].
      * destruct (A4 r Hr) as [r0 [Hr0 Hc]]. exists r0.
        split; [apply Hin; now left | exact Hc].
      * destruct (B4 r Hr) as [r0 [Hr0 Hc]]. exists r0.
        split; [apply Hin; now right | exact Hc].
Qed.

End SplitSampleFacts.

(** ** The counts of cell 11 *)

Lemma insert_desc_Permutation (e : string * nat) (l : list (string * nat)) :
  Permutation (insert_desc e l) (e :: l).
Proof.
  induction l as [|e' l IH]; simpl.
  - reflexivity.
  - destruct (snd e' <=? snd e)%nat; [reflexivity|].
    rewrite IH. apply perm_swap.
Qed.

Lemma sort_desc_Permutation (l : list (string * nat)) :
  Permutation (fold_right insert_desc [] l) l.
Proof.
  induction l as [|e l IH]; simpl; [reflexivity|].
  rewrite insert_desc_Permutation. now constructor.
Qed.

Lemma insert_desc_sorted (e : string * nat) (l : list (string * nat)) :
  StronglySorted (fun a b => (snd b <= snd a)%nat) l ->
  StronglySorted (fun a b => (snd b <= snd a)%nat) (insert_desc e l).
Proof.
  induction 1 as [|e' l Hs IH Hall]; simpl.
  - repeat constructor.
  - destruct (Nat.leb_spec (snd e') (snd e)) as [Hle|Hgt].
    + constructor; [now constructor|].
      constructor; [exact Hle|].
      eapply Forall_impl; [|exact Hall]. intros b Hb. simpl in *. lia.
    + constructor; [exact IH|].
      apply Forall_forall. intros b Hb.
      apply (Permutation_in _ (insert_desc_Permutation e l)) in Hb.
      destruct Hb as [<-|Hb]; [lia|].
      rewrite Forall_forall in Hall. now apply Hall.
Qed.

Lemma sort_desc_sorted (l : list (string * nat)) :
  StronglySorted (fun a b => (snd b <= snd a)%nat) (fold_right insert_desc [] l).
Proof.
  induction l as [|e l IH]; simpl; [constructor | now apply insert_desc_sorted].
Qed.

Lemma count_label_cons (l a : string) (y : list string) :
  count_label l (a :: y)
  = ((if String.eqb l a then 1 else 0) + count_label l y)%nat.
Proof.
  unfold count_label, count_if. simpl. destruct (String.eqb l a); reflexivity.
Qed.

Lemma sum_indicator (ks : list string) (a : string) :
  NoDup ks -> In a ks ->
  list_sum (map (fun k => if String.eqb k a then 1 else 0)%nat ks) = 1%nat.
Proof.
  induction 1 as [|k ks Hnot Hnd IH]; simpl; intros Hin; [contradiction|].
  destruct (String.eqb_spec k a) as [->|Hne].
  - assert (Hz : list_sum (map (fun k => if String.eqb k a then 1 else 0)%nat ks)
                 = 0%nat).
    { clear -Hnot. induction ks as [|k ks IH]; simpl; [reflexivity|].
      destruct (String.eqb_spec k a) as [->|Hne].
      - exfalso. apply Hnot. now left.
      - apply IH. intros Hin. apply Hnot. now right. }
    now rewrite Hz.
  - destruct Hin as [Heq|Hin]; [congruence|]. now apply IH.
Qed.

Lemma counts_add_up (ks y : list string) :
  NoDup ks -> (forall a, In a y -> In a ks) ->
  list_sum (map (fun k => count_label k y) ks) = length y.
Proof.
  intros Hnd. induction y as [|a y IH]; intros Hall.
  - clear. induction ks as [|k ks IHk]; simpl; [reflexivity | exact IHk].
  - assert (Heq : list_sum (map (fun k => count_label k (a :: y)) ks)
                  = (list_sum (map (fun k => if String.eqb k a then 1 else 0)%nat ks)
                     + list_sum (map (fun k => count_label k y) ks))%nat).
    { clear. induction ks as [|k ks IHk]; simpl; [reflexivity|].
      rewrite IHk, count_label_cons. lia. }
    rewrite Heq, sum_indicator; [|exact Hnd | apply Hall; now left].
    rewrite IH; [reflexivity|]. intros b Hb. apply Hall. now right.
Qed.

Lemma count_label_pos (l : string) (y : list string) :
  In l y -> (0 < count_label l y)%nat.
Proof.
  induction y as [|a y IH]; simpl; intros Hin; [contradiction|].
  rewrite count_label_cons. destruct (String.eqb_spec l a) as [->|Hne]; [lia|].
  destruct Hin as [Heq|Hin]; [congruence|]. simpl. now apply IH.
Qed.

Lemma list_sum_Permutation (l l' : list nat) :
  Permutation l l' -> list_sum l = list_sum l'.
Proof.
  induction 1; simpl; lia.
Qed.

Section Cell11Facts.
Context {R : RandomGen} {W : Wrappers}.

(** X16.  The counts that cell 11 shows: when the label column of
    [df_train] holds strings, the cell returns, without changing the
    notebook, one line per distinct label with the number of rows that
    carry it; every count is positive, the counts come in decreasing
    order, and they add up to the number of rows of [df_train]. *)
Theorem value_counts_add_up (s : Notebook) (y : list string) :
  getitem (df_train s) LABEL_COL = Ok (map VStr y) ->
  exists vc : list (string * nat),
    cell11 s = (Ok vc, s) /\
    list_sum (map snd vc) = shape0 (df_train s) /\
    NoDup (map fst vc) /\
    (forall l, In l (map fst vc) <-> In l y) /\
    (forall l n, In (l, n) vc -> n = count_label l y /\ (0 < n)%nat) /\
    StronglySorted (fun a b => (snd b <= snd a)%nat) vc.
Proof.
  intros Hcol. exists (value_counts y).
  set (base := map (fun l => (l, count_label l y))
                   (np_unique String.compare y)).
  assert (Hperm : Permutation (value_counts y) base)
    by apply sort_desc_Permutation.
  assert (Hfst : map fst base = np_unique String.compare y).
  { unfold base. rewrite map_map. simpl. apply map_id. }
  assert (Hsnd : map snd base
                 = map (fun k => count_label k y) (np_unique String.compare y)).
  { unfold base. rewrite map_map. reflexivity. }
  split; [|split; [|split; [|split; [|split]]]].
  - unfold cell11, bindM, get, lift, ret. rewrite Hcol, as_label_VStr.
    reflexivity.
  - rewrite (list_sum_Permutation _ _ (Permutation_map snd Hperm)), Hsnd.
    apply getitem_Ok_length in Hcol. rewrite length_map in Hcol.
    rewrite <- Hcol. apply counts_add_up.
    + apply (classes_NoDup y).
    + intros a Ha. now apply (classes_In y).
  - apply (Permutation_NoDup (Permutation_sym (Permutation_map fst Hperm))).
    rewrite Hfst. apply (classes_NoDup y).
  - intros l. split; intros H.
    + apply (Permutation_in _ (Permutation_map fst Hperm)) in H.
      rewrite Hfst in H. now apply (classes_In y).
    + apply (Permutation_in _ (Permutation_sym (Permutation_map fst Hperm))).
      rewrite Hfst. now apply (classes_In y).
  - intros l n H. apply (Permutation_in _ Hperm) in H.
    unfold base in H. apply in_map_iff in H. destruct H as [l' [[= -> <-] Hin]].
    split; [reflexivity|]. apply count_label_pos. now apply (classes_In y).
  - apply sort_desc_sorted.
Qed.

End Cell11Facts.

(** ** The further properties on the small instances *)

Lemma label_mapping_bijection_witness :
  exists c,
    LabelEncoder.encode (LabelEncoder.fit ["slate"; "fiction"; "slate"]%string)
                        "slate" = Ok c /\
    (0 <= c < 2)%Z.
Proof.
  destruct (label_mapping_bijection ["slate"; "fiction"; "slate"]%string)
    as [_ [_ [H _]]].
  destruct (H "slate"%string) as [c [Hc Hr]].
  - simpl. now left.
  - exists c. split; [exact Hc | exact Hr].
Defined.

Lemma unseen_test_label_stops_cell12_witness :
  exists s', cell12 (split_notebook 0) = (Raise UnknownLabelError, s') /\
             df_test s' = df_test (split_notebook 0).
Proof.
  destruct (@unseen_test_label_stops_cell12 RotateGen (ToyWrappers never_fails)
              (split_notebook 0)
              (flat_map (fun _ => ["slate"; "travel"]%string) (seq 0 10))
              (flat_map (fun _ => ["travel"; "fiction"]%string) (seq 0 10)))
    as [s' [codes [H [_ [_ [Ht _]]]]]].
  - vm_compute. reflexivity.
  - vm_compute. reflexivity.
  - exists "fiction"%string. split.
    + vm_compute. right. left. reflexivity.
    + vm_compute. intros H.
      repeat (destruct H as [H|H]; [discriminate H|]). exact H.
  - exists s'. split; [exact H | exact Ht].
Defined.

Lemma cell12_completes_witness :
  exists s', cell12 sampled_notebook = (Ok tt, s').
Proof.
  apply (@cell12_completes RotateGen (ToyWrappers never_fails) sampled_notebook
           ["travel"; "fiction"; "travel"]%string ["fiction"; "travel"]%string).
  - vm_compute. reflexivity.
  - vm_compute. reflexivity.
  - intros l [<-|[<-|[]]]; simpl; tauto.
Defined.

Lemma num_labels_counts_the_classes_witness :
  exists le,
    label_encoder (snd (cell12 sampled_notebook)) = Some le /\
    num_labels (snd (cell12 sampled_notebook))
    = length (LabelEncoder.classes_ le).
Proof.
  destruct (@num_labels_counts_the_classes RotateGen (ToyWrappers never_fails)
              sampled_notebook (snd (cell12 sampled_notebook)))
    as [le [c1 [c2 [H1 [H2 _]]]]].
  - vm_compute. reflexivity.
  - exists le. split; [exact H1 | exact H2].
Defined.

Lemma results_in_configured_order_witness :
  map fst (results (snd (cell19 "cache" MODEL_NAMES (encoded_notebook never_fails))))
  = MODEL_NAMES.
Proof.
  assert (Hnd : NoDup MODEL_NAMES).
  { repeat constructor; simpl; intros H;
      repeat (destruct H as [H|H]; [discriminate H|]); exact H. }
  pose proof (@results_in_configured_order RotateGen (ToyWrappers never_fails)
                "cache" MODEL_NAMES (encoded_notebook never_fails) Hnd) as H.
  destruct (cell19 "cache" MODEL_NAMES (encoded_notebook never_fails))
    as [[u|e] s'] eqn:E.
  - exact H.
  - vm_compute in E. discriminate E.
Defined.

Lemma results_hold_rates_witness :
  exists rec,
    lookup "roberta-base"
           (results (snd (cell19 "cache" MODEL_NAMES (encoded_notebook never_fails))))
    = Some rec /\
    0 <= accuracy rec /\ accuracy rec <= 1 /\ 0 <= f1 rec /\ f1 rec <= 1.
Proof.
  eexists. split; [vm_compute; reflexivity|].
  apply (@results_hold_rates RotateGen (ToyWrappers never_fails) "cache"
           MODEL_NAMES (encoded_notebook never_fails)) with (k := "roberta-base"%string).
  - vm_compute. discriminate.
  - vm_compute. reflexivity.
Defined.

Lemma endswith_iff_suffix_witness :
  endswith "distilbert-base-uncased" "uncased" = true.
Proof.
  apply (proj2 (endswith_iff_suffix "distilbert-base-uncased" "uncased")).
  exists "distilbert-base-"%string. reflexivity.
Defined.

Lemma sample_draws_distinct_rows_witness :
  exists locs rest : list nat,
    NoDup (locs ++ rest) /\ length locs = 4%nat.
Proof.
  destruct (@sample_draws_distinct_rows RotateGen RotateGen_ok
              (frame_of (map VInt [0; 1; 0; 1; 0]%Z))
              (df_take (frame_of (map VInt [0; 1; 0; 1; 0]%Z)) [1; 2; 3; 4]%nat)
              (3 # 4) None 1%nat)
    as [locs [rest [H1 [_ [_ [H4 _]]]]]].
  - vm_compute. reflexivity.
  - exists locs, rest. split; [exact H1 | exact H4].
Defined.

Lemma split_then_sample_witness :
  exists s',
    bindM cell8 (fun _ => cell9) loaded_notebook = (Ok tt, s') /\
    shape0 (df_train s') = 2%nat /\ shape0 (df_test s') = 0%nat.
Proof.
  destruct (@split_then_sample RotateGen (ToyWrappers never_fails) RotateGen_ok
              loaded_notebook) as [s' [H [[H1 H2] _]]].
  exists s'. split; [exact H|]. split.
  - rewrite H1. vm_compute. reflexivity.
  - rewrite H2. vm_compute. reflexivity.
Defined.

Lemma value_counts_add_up_witness :
  exists vc,
    cell11 sampled_notebook = (Ok vc, sampled_notebook) /\
    list_sum (map snd vc) = 3%nat.
Proof.
  destruct (@value_counts_add_up RotateGen (ToyWrappers never_fails)
              sampled_notebook ["travel"; "fiction"; "travel"]%string)
    as [vc [H1 [H2 _]]].
  - vm_compute. reflexivity.
  - exists vc. split; [exact H1 | exact H2].
Defined.

(** ** Assignments to a column and to [results] *)



Lemma keys_assign_old {V : Type} (k : string) (v : V) (d : list (string * V)) :
  In k (map fst d) -> map fst (assign k v d) = map fst d.
Proof.
  induction d as [|[k' v'] d IH]; simpl; intros Hin; [contradiction|].
  destruct (String.eqb_spec k k') as [->|Hne]; [reflexivity|].
  simpl. f_equal. apply IH. destruct Hin as [Heq|Hin]; [congruence | exact Hin].
Qed.

Lemma assign_keys_NoDup {V : Type} (k : string) (v : V) (d : list (string * V)) :
  NoDup (map fst d) -> NoDup (map fst (assign k v d)).
Proof.
  intros Hnd. destruct (in_dec string_dec k (map fst d)) as [Hin|Hnot].
  - now rewrite keys_assign_old.
  - rewrite keys_assign_new by exact Hnot.
    apply NoDup_app; [exact Hnd | repeat constructor; intros [] |].
    intros a Ha [<-|[]]. contradiction.
Qed.

Section KeysFacts.
Context {R : RandomGen} {W : Wrappers}.
Variable CACHE_DIR : string.

Lemma for_each_keys_NoDup (names : list string) (s : Notebook) :
  NoDup (map fst (results s)) ->
  NoDup (map fst (results (snd (for_each names (fine_tune_and_score CACHE_DIR) s)))).
Proof.
  revert s. induction names as [|m names IH]; intros s Hnd; simpl.
  - exact Hnd.
  - unfold bindM.
    destruct (fine_tune_and_score CACHE_DIR m s) as [[[]|e] s1] eqn:B.
    + apply IH.
      destruct (fine_tune_and_score_Ok _ _ _ _ B) as [[rec ->] _].
      now apply assign_keys_NoDup.
    + simpl. destruct (fine_tune_and_score_Raise _ _ _ _ _ B) as [-> _].
      exact Hnd.
Qed.

(** X18.  One entry per identifier: whatever the list of model names,
    repeated names included, and whether cell 19 completes or raises,
    no two entries of [results] have the same key; a later completed
    turn of a name replaces the record of the earlier one, in its
    place. *)
Theorem results_keys_are_distinct (names : list string) (s : Notebook) :
  NoDup (map fst (results (snd (cell19 CACHE_DIR names s)))) /\
  (forall (m : string) (s1 s2 : Notebook),
      fine_tune_and_score CACHE_DIR m s1 = (Ok tt, s2) ->
      lookup m (results s1) <> None ->
      map fst (results s2) = map fst (results s1) /\
      lookup m (results s2) <> None /\
      (forall k, k <> m -> lookup k (results s2) = lookup k (results s1))).
Proof.
  split.
  - unfold cell19, bindM, modify.
    apply (for_each_keys_NoDup names (set_results [] s)). constructor.
  - intros m s1 s2 H Hin.
    destruct (fine_tune_and_score_Ok _ _ _ _ H) as [[rec ->] _].
    split; [|split].
    + apply keys_assign_old.
      destruct (in_dec string_dec m (map fst (results s1))) as [Hi|Hn];
        [exact Hi|]. apply lookup_None_keys in Hn. contradiction.
    + rewrite lookup_assign, String.eqb_refl. discriminate.
    + intros k Hk. rewrite lookup_assign.
      apply String.eqb_neq in Hk. now rewrite Hk.
Qed.

End KeysFacts.

Lemma results_keys_are_distinct_witness :
  map fst (results
             (snd (fine_tune_and_score "cache" "roberta-base"
                     (snd (cell19 "cache" ["roberta-base"; "xlnet-base-cased"]%string
                             (encoded_notebook never_fails))))))
  = ["roberta-base"; "xlnet-base-cased"]%string.
Proof.
  destruct (proj2 (@results_keys_are_distinct RotateGen (ToyWrappers never_fails)
                     "cache" [] (encoded_notebook never_fails))
              "roberta-base"%string
              (snd (cell19 "cache" ["roberta-base"; "xlnet-base-cased"]%string
                      (encoded_notebook never_fails)))
              (snd (fine_tune_and_score "cache" "roberta-base"
                      (snd (cell19 "cache" ["roberta-base"; "xlnet-base-cased"]%string
                              (encoded_notebook never_fails))))))
    as [H _].
  - vm_compute. reflexivity.
  - vm_compute. discriminate.
  - rewrite H. vm_compute. reflexivity.
Defined.
